(** * ubuntu-app-launch: snap store backend, icon finder, desktop hook

    A shallow embedding of
    - [libubuntu-app-launch/app-store-snap.cpp]   (module [AppStoreSnap]),
    - [libubuntu-app-launch/application-icon-finder.cpp] (module [IconFinder]),
    - [desktop-hook.c]                            (module [DesktopHook]),
    together with the library calls they rest on (modules [StdString],
    [StdRegex], [StdList], [GLib]), followed by the properties proved
    about them. *)

From Stdlib Require Import String Ascii List ZArith Lia Bool Sorted Permutation.
From stdpp Require Import gmap strings list.
Import ListNotations.

(* ===================================================================== *)
(** * std::string *)
(* ===================================================================== *)

Module StdString.

(** [std::string::npos], the largest [size_t]. *)
Definition npos : Z := (2 ^ 64 - 1)%Z.

(** Arithmetic on [size_t] wraps around modulo 2^64. *)
Definition size_t_sub (a b : Z) : Z := ((a - b) mod 2 ^ 64)%Z.

Definition size (s : string) : Z := Z.of_nat (String.length s).

Definition empty (s : string) : bool := String.eqb s "".

(** [s[0]] : the first character; the terminating NUL on an empty string. *)
Definition front (s : string) : ascii :=
  match s with
  | EmptyString => Ascii.zero
  | String c _ => c
  end.

(** [s.substr(pos, n)] for [pos <= s.size()]: the characters from [pos]
    on, at most [n] of them and at most those left ([n = npos] takes the
    rest). *)
Definition substr (s : string) (pos n : Z) : string :=
  String.substring (Z.to_nat pos) (Z.to_nat (Z.min n (size s))) s.

(** [s.find(sub)]: index of the first occurrence of [sub], or [npos]. *)
Definition find (s sub : string) : Z :=
  match String.index 0 sub s with
  | Some i => Z.of_nat i
  | None => npos
  end.

(** Last index [i < bound] of [s] that holds [c], as a natural number. *)
Fixpoint rindex_below (c : ascii) (s : string) (bound : nat) : option nat :=
  match bound with
  | O => None
  | S i =>
      match String.get i s with
      | Some c' => if Ascii.eqb c' c then Some i else rindex_below c s i
      | None => rindex_below c s i
      end
  end.

(** [s.find_last_of(c, pos)]: the last index [<= pos] holding [c], or
    [npos]; a [pos] at or past the end searches the whole string. *)
Definition find_last_of (s : string) (c : ascii) (pos : Z) : Z :=
  let bound := Z.min (pos + 1) (size s) in
  match rindex_below c s (Z.to_nat bound) with
  | Some i => Z.of_nat i
  | None => npos
  end.

End StdString.

(* ===================================================================== *)
(** * std::regex, as far as [std::regex_match] needs it *)
(* ===================================================================== *)

Module StdRegex.

(** The fragment of ECMAScript patterns the sources use without
    back-references.  [std::regex_match] succeeds only when the whole
    subject is matched, so a leading [^] and a trailing [$] add nothing
    and have no constructor. *)
Inductive regex : Type :=
| Fail                                   (* matches nothing *)
| Eps                                    (* the empty pattern *)
| Chr (c : ascii)                        (* one literal character *)
| Bracket (ranges : list (ascii * ascii))  (* [a-b...] *)
| Seq (r1 r2 : regex)
| Alt (r1 r2 : regex)
| Star (r : regex).

(** [r?] *)
Definition Opt (r : regex) : regex := Alt r Eps.

Definition in_range (c : ascii) (rg : ascii * ascii) : bool :=
  (nat_of_ascii (fst rg) <=? nat_of_ascii c)%nat
  && (nat_of_ascii c <=? nat_of_ascii (snd rg))%nat.

Fixpoint nullable (r : regex) : bool :=
  match r with
  | Fail => false
  | Eps => true
  | Chr _ => false
  | Bracket _ => false
  | Seq r1 r2 => nullable r1 && nullable r2
  | Alt r1 r2 => nullable r1 || nullable r2
  | Star _ => true
  end.

(** Brzozowski derivative of [r] by the character [c]. *)
Fixpoint deriv (c : ascii) (r : regex) : regex :=
  match r with
  | Fail => Fail
  | Eps => Fail
  | Chr c' => if Ascii.eqb c c' then Eps else Fail
  | Bracket ranges => if existsb (in_range c) ranges then Eps else Fail
  | Seq r1 r2 =>
      if nullable r1
      then Alt (Seq (deriv c r1) r2) (deriv c r2)
      else Seq (deriv c r1) r2
  | Alt r1 r2 => Alt (deriv c r1) (deriv c r2)
  | Star r1 => Seq (deriv c r1) (Star r1)
  end.

Fixpoint matches (r : regex) (s : string) : bool :=
  match s with
  | EmptyString => nullable r
  | String c s' => matches (deriv c r) s'
  end.

(** [std::regex_match(s, re)] *)
Definition regex_match (s : string) (re : regex) : bool := matches re s.

(** [\d] *)
Definition is_digit (c : ascii) : bool := in_range c ("0"%char, "9"%char).

End StdRegex.

(* ===================================================================== *)
(** * libubuntu-app-launch/app-store-snap.cpp *)
(* ===================================================================== *)

Module AppStoreSnap.
Import StdRegex.

(** ** AppID and its field types

    [AppID::Package], [AppID::AppName] and [AppID::Version] are tagged
    wrappers around [std::string]; [value()] is the identity here. *)
Definition Package : Type := string.
Definition AppName : Type := string.
Definition Version : Type := string.

Record AppID : Type := {
  package : Package;
  appname : AppName;
  version : Version
}.

Inductive ApplicationWildcard : Type :=
| FIRST_LISTED
| LAST_LISTED
| ONLY_LISTED.

(** ** The [std::set] of app names of a package

    A [std::set] iterates its elements in strictly increasing key order;
    it is kept as that in-order sequence.  [String.ltb] is the
    byte-wise lexicographic order of [std::string::operator<]. *)
Fixpoint strictly_increasing (l : list AppName) : bool :=
  match l with
  | [] => true
  | x :: l' => forallb (String.ltb x) l' && strictly_increasing l'
  end.

Record AppNameSet : Type := {
  elements : list AppName;
  elements_ordered : strictly_increasing elements = true
}.

Definition set_empty (s : AppNameSet) : bool :=
  match elements s with [] => true | _ :: _ => false end.

Definition set_size (s : AppNameSet) : nat := List.length (elements s).

(** [s.find(x) != s.end()] *)
Definition set_contains (s : AppNameSet) (x : AppName) : bool :=
  existsb (String.eqb x) (elements s).

(** [*s.begin()] and [*s.rbegin()]; both are only evaluated on a set
    already known to be non-empty (the default stands for the undefined
    dereference of [end()]). *)
Definition set_begin (s : AppNameSet) : AppName := List.hd ""%string (elements s).
Definition set_rbegin (s : AppNameSet) : AppName := List.last (elements s) ""%string.

(** ** snapd::Info::PkgInfo, the fields this file reads *)
Record PkgInfo : Type := {
  appnames : AppNameSet;
  revision : string
}.

(** ** Exceptions and the package-daemon collaborator *)
Inductive exception : Type :=
| runtime_error (what : string)
| logic_error (what : string).

Inductive outcome (A : Type) : Type :=
| Returns (a : A)
| Throws (e : exception).
Arguments Returns {A} a.
Arguments Throws {A} e.

(** [registry->impl->snapdInfo]: what the daemon answers for a package
    name.  [Returns None] is the null [shared_ptr] (package unknown),
    [Throws e] an error raised by the lookup. *)
Record Registry : Type := {
  snapdInfo : Package -> outcome (option PkgInfo)
}.

(** A backend call threads the log of daemon lookups it performed (the
    package names handed to [snapdInfo.pkgInfo], oldest first) and ends
    in a value or an exception. *)
Definition Call (A : Type) : Type := list Package -> outcome A * list Package.

#[global] Instance call_ret : MRet Call :=
  fun A a log => (Returns a, log).

#[global] Instance call_bind : MBind Call :=
  fun A B k m log =>
    match m log with
    | (Returns a, log') => k a log'
    | (Throws e, log') => (Throws e, log')
    end.

Definition throw {A : Type} (e : exception) : Call A :=
  fun log => (Throws e, log).

(** [try { body } catch (std::runtime_error& e) { handler }] *)
Definition try_catch_runtime_error {A : Type}
    (body : Call A) (handler : string -> Call A) : Call A :=
  fun log =>
    match body log with
    | (Throws (runtime_error what), log') => handler what log'
    | r => r
    end.

(** [registry->impl->snapdInfo.pkgInfo(package)] *)
Definition pkgInfo (registry : Registry) (package : Package)
  : Call (option PkgInfo) :=
  fun log => (snapdInfo registry package, log ++ [package]).

(** ** Constants *)

Definition alnum : regex :=
  Bracket [("a"%char, "z"%char); ("A"%char, "Z"%char); ("0"%char, "9"%char)].

(** [appnameRegex{"^[a-zA-Z0-9](?:-?[a-zA-Z0-9])*$"}] *)
Definition appnameRegex : regex :=
  Seq alnum (Star (Seq (Opt (Chr "-"%char)) alnum)).

(** The three [std::runtime_error]s of [findAppname], under the names
    the specification gives them. *)
Definition PackageNotFound (package : Package) : exception :=
  runtime_error ("Packge '" +:+ package +:+ "' doesn't have valid info.").
Definition EmptyPackage (package : Package) : exception :=
  runtime_error ("No apps in package '" +:+ package +:+ "' to find").
Definition AmbiguousPackage (package : Package) : exception :=
  runtime_error ("More than a single app in package '" +:+ package +:+
                 "' when requested to find only app").

Section Backend.

(** [app_impls::Snap::checkPkgInfo] is defined in
    application-impl-snap.cpp; it receives only the looked-up info and
    the AppID, and is taken as given. *)
Variable checkPkgInfo : option PkgInfo -> AppID -> bool.

Variable registry : Registry.

(** [Snap::hasAppId] *)
Definition hasAppId (appId : AppID) : Call bool :=
  if StdString.empty (package appId) || StdString.empty (version appId)
  then mret false
  else if negb (regex_match (appname appId) appnameRegex)
  then mret false
  else
    pkginfo ← pkgInfo registry (package appId);
    mret (checkPkgInfo pkginfo appId).

(** [Snap::verifyPackage] *)
Definition verifyPackage (package : Package) : Call bool :=
  try_catch_runtime_error
    (pkgInfo ← pkgInfo registry package;
     mret (match pkgInfo with Some _ => true | None => false end))
    (fun _ => mret false).

(** [Snap::verifyAppname] *)
Definition verifyAppname (package : Package) (appname : AppName) : Call bool :=
  if negb (regex_match appname appnameRegex)
  then mret false
  else
    pkgInfo ← pkgInfo registry package;
    match pkgInfo with
    | None => mret false
    | Some info => mret (set_contains (appnames info) appname)
    end.

(** [Snap::findAppname].  The [std::logic_error] after the switch is
    reached only by a value outside the enumeration, which
    [ApplicationWildcard] does not have. *)
Definition findAppname (package : Package) (card : ApplicationWildcard)
  : Call AppName :=
  pkgInfo ← pkgInfo registry package;
  match pkgInfo with
  | None => throw (PackageNotFound package)
  | Some info =>
      if set_empty (appnames info)
      then throw (EmptyPackage package)
      else
        match card with
        | FIRST_LISTED => mret (set_begin (appnames info))
        | LAST_LISTED => mret (set_rbegin (appnames info))
        | ONLY_LISTED =>
            if negb (set_size (appnames info) =? 1)%nat
            then throw (AmbiguousPackage package)
            else mret (set_begin (appnames info))
        end
  end.

(** [Snap::findVersion]; [appname] is not used for snaps. *)
Definition findVersion (package : Package) (appname : AppName) : Call Version :=
  pkgInfo ← pkgInfo registry package;
  match pkgInfo with
  | Some info => mret (revision info)
  | None => mret ""%string
  end.

End Backend.

End AppStoreSnap.

(* ===================================================================== *)
(** * std::list::sort *)
(* ===================================================================== *)

Module StdList.

Section Sort.

Context {A : Type}.

(** [comp(a, b)]: [a] goes before [b]. *)
Variable comp : A -> A -> bool.

(** [l1.merge(l2, comp)]: an element of [l2] moves in front of the
    current element of [l1] only when [comp] puts it strictly before;
    on equivalent elements those of [l1] stay first. *)
Fixpoint merge (l1 : list A) : list A -> list A :=
  fix merge_into (l2 : list A) : list A :=
    match l1, l2 with
    | [], _ => l2
    | _, [] => l1
    | a1 :: l1', a2 :: l2' =>
        if comp a2 a1 then a2 :: merge_into l2' else a1 :: merge l1' l2
    end.

(** One round of the bottom-up merge sort: [carry] is merged into the
    occupied bins it meets, and lands in the first empty one. *)
Fixpoint carry_into (carry : list A) (bins : list (list A)) : list (list A) :=
  match bins with
  | [] => [carry]
  | [] :: bins' => carry :: bins'
  | b :: bins' => [] :: carry_into (merge b carry) bins'
  end.

(** The closing loop: every bin absorbs the merge of the lower ones. *)
Fixpoint collapse (acc : list A) (bins : list (list A)) : list A :=
  match bins with
  | [] => acc
  | b :: bins' => collapse (merge b acc) bins'
  end.

(** [l.sort(comp)], which the standard requires to be stable, as the
    usual bottom-up merge sort: the elements are taken from the front
    one by one and carried into the bins; the bins are then merged
    upwards. *)
Definition sort (l : list A) : list A :=
  collapse [] (fold_left (fun bins x => carry_into [x] bins) l []).

End Sort.

End StdList.

(* ===================================================================== *)
(** * GLib: file names, string tests, key files, the file system *)
(* ===================================================================== *)

Module GLib.

Definition is_separator (c : ascii) : bool := Ascii.eqb c "/"%char.

Fixpoint leading_separators (s : string) : string :=
  match s with
  | String c s' => if is_separator c then String c (leading_separators s') else ""
  | EmptyString => ""
  end.

Fixpoint skip_separators (s : string) : string :=
  match s with
  | String c s' => if is_separator c then skip_separators s' else s
  | EmptyString => ""
  end.

Fixpoint string_rev (s : string) : string :=
  match s with
  | EmptyString => ""
  | String c s' => string_rev s' +:+ String c ""
  end.

Definition trailing_separators (s : string) : string :=
  leading_separators (string_rev s).

(** The element without its leading and trailing separators. *)
Definition strip_separators (s : string) : string :=
  string_rev (skip_separators (string_rev (skip_separators s))).

Definition nonempty (s : string) : bool := negb (String.eqb s "").

(** [g_build_filename(e1, ..., NULL)] on a system whose separator is
    [/]: empty elements are ignored; the separators at each boundary
    collapse to one; the leading separators of the first element and the
    trailing ones of the last are kept; a sole element made of
    separators only is returned as it is. *)
Definition g_build_filename (elements : list string) : string :=
  match List.filter nonempty elements with
  | [] => ""
  | [single] =>
      if nonempty (strip_separators single)
      then leading_separators single +:+ strip_separators single
           +:+ trailing_separators single
      else single
  | first :: rest =>
      leading_separators first
      +:+ String.concat "/"
            (List.filter nonempty (List.map strip_separators (first :: rest)))
      +:+ trailing_separators (List.last rest first)
  end.

(** [g_str_has_prefix] and [g_str_has_suffix] *)
Definition g_str_has_prefix (str prefix : string) : bool :=
  String.prefix prefix str.

Definition g_str_has_suffix (str suffix : string) : bool :=
  String.prefix (string_rev suffix) (string_rev str).

(** ** GKeyFile: the values stored under (group, key) *)

Abbreviation GKeyFile := (gmap (string * string) string).

Definition g_key_file_has_key (kf : GKeyFile) (group key : string) : bool :=
  bool_decide (is_Some (kf !! (group, key))).

(** [None] stands for a call that sets its [GError]. *)
Definition g_key_file_get_string (kf : GKeyFile) (group key : string)
  : option string :=
  kf !! (group, key).

Definition g_key_file_set_string (kf : GKeyFile) (group key value : string)
  : GKeyFile :=
  <[(group, key) := value]> kf.

(** A C [int] is 32 bits wide, two's complement. *)
Definition int_min : Z := (- 2 ^ 31)%Z.
Definition int_max : Z := (2 ^ 31 - 1)%Z.
Definition wrap_int (z : Z) : Z := ((z + 2 ^ 31) mod 2 ^ 32 - 2 ^ 31)%Z.

Fixpoint decimal_value (acc : Z) (s : string) : option Z :=
  match s with
  | EmptyString => Some acc
  | String c s' =>
      if StdRegex.is_digit c
      then decimal_value (10 * acc + (Z.of_nat (nat_of_ascii c) - 48))%Z s'
      else None
  end.

Definition parse_integer (s : string) : option Z :=
  match s with
  | EmptyString => None
  | String "-" (String c r) => Z.opp <$> decimal_value 0 (String c r)
  | String "+" (String c r) => decimal_value 0 (String c r)
  | _ => decimal_value 0 s
  end.

(** [g_key_file_get_integer]: an error when the key is missing, when its
    value is not a decimal integer, or when it does not fit an [int].
    The value is the text of the key as the loaded file holds it, taken
    without white space around the number. *)
Definition g_key_file_get_integer (kf : GKeyFile) (group key : string)
  : option Z :=
  v ← kf !! (group, key);
  n ← parse_integer v;
  if ((int_min <=? n) && (n <=? int_max))%Z then Some n else None.

Fixpoint split_on (sep : ascii) (cur : string) (s : string) : list string :=
  match s with
  | EmptyString => if nonempty cur then [cur] else []
  | String c s' =>
      if Ascii.eqb c sep
      then cur :: split_on sep "" s'
      else split_on sep (cur +:+ String c "") s'
  end.

(** [g_key_file_get_string_list] after
    [g_key_file_set_list_separator(kf, ',')]. *)
Definition g_key_file_get_string_list (kf : GKeyFile) (group key : string)
  : option (list string) :=
  split_on ","%char "" <$> kf !! (group, key).

(** ** The file system as the program finds it *)
Record FileSystem : Type := {
  (** [g_file_test(path, G_FILE_TEST_EXISTS)] *)
  file_exists : string -> bool;
  (** [g_file_test(path, G_FILE_TEST_IS_DIR)] *)
  is_dir : string -> bool;
  (** [g_dir_open] then [g_dir_read_name] until NULL: the entry names
      in the order read, [None] when the directory cannot be opened *)
  read_dir : string -> option (list string);
  (** [g_key_file_load_from_file]: [None] on a load or parse error *)
  load_key_file : string -> option GKeyFile;
  (** [G_FILE_ATTRIBUTE_TIME_CREATED] of an entry, a [guint64] *)
  time_created : string -> Z;
  (** whether [g_mkdir_with_parents(path, 0755)] returns 0 *)
  mkdir_succeeds : string -> bool
}.

End GLib.

(* ===================================================================== *)
(** * libubuntu-app-launch/application-icon-finder.cpp *)
(* ===================================================================== *)

Module IconFinder.
Import StdString GLib.

Local Open Scope Z_scope.

Definition ICONS_DIR : string := "/icons".
Definition HICOLOR_THEME_DIR : string := "/icons/hicolor".
Definition HUMANITY_THEME_DIR : string := "/icons/Humanity".
Definition THEME_INDEX_FILE : string := "index.theme".
Definition APPLICATIONS_TYPE : string := "Applications".
Definition SIZE_PROPERTY : string := "Size".
Definition MAXSIZE_PROPERTY : string := "MaxSize".
Definition THRESHOLD_PROPERTY : string := "Threshold".
Definition FIXED_CONTEXT : string := "Fixed".
Definition SCALABLE_CONTEXT : string := "Scalable".
Definition THRESHOLD_CONTEXT : string := "Threshold".
Definition CONTEXT_PROPERTY : string := "Context".
Definition TYPE_PROPERTY : string := "Type".
Definition DIRECTORIES_PROPERTY : string := "Directories".
Definition ICON_THEME_KEY : string := "Icon Theme".
Definition PIXMAPS_PATH : string := "/pixmaps/".
Definition ICON_TYPES : list string := [".png"; ".svg"; ".xpm"].

(** [IconFinder::ThemeSubdirectory]; [size] is an [int]. *)
Record ThemeSubdirectory : Type := {
  path : string;
  size : Z
}.

(** [IconFinder]'s members. *)
Record IconFinder : Type := {
  _searchPaths : list ThemeSubdirectory;
  _basePath : string
}.

(** [iconSizeDirname = "^(\\d+)x\\1$"]: the result is the text captured
    by group 1.  The group holds digits only, so it ends at the first
    character that is not a digit, which has to be the [x]; the rest
    has to repeat the group. *)
Fixpoint leading_digits (s : string) : string :=
  match s with
  | String c s' => if StdRegex.is_digit c then String c (leading_digits s') else ""
  | EmptyString => ""
  end.

Definition iconSizeDirname (s : string) : option string :=
  let digits := leading_digits s in
  if nonempty digits && String.eqb s (digits +:+ "x" +:+ digits)
  then Some digits
  else None.

(** [strtol(nptr, NULL, 10)] on a string that begins with neither white
    space nor a sign (the pattern above captures digits only): the value
    of the leading run of digits, computed in [long], which has 64 bits
    here; a value past [LONG_MAX] gives [LONG_MAX]. *)
Definition LONG_MAX : Z := (2 ^ 63 - 1)%Z.

Definition strtol (nptr : string) : Z :=
  match decimal_value 0 (leading_digits nptr) with
  | Some n => Z.min n LONG_MAX
  | None => 0
  end.

(** [std::atoi]: the C library computes it as
    [(int) strtol(nptr, NULL, 10)], so a value that fits a [long] but
    not an [int] is cut to its low 32 bits, and a value past [LONG_MAX]
    gives [(int) LONG_MAX], which is -1. *)
Definition atoi (nptr : string) : Z := wrap_int (strtol nptr).

Section WithFileSystem.

Variable fs : FileSystem.

(** The [while] loop of [tryMergeFilePaths].  The loop need not end (see
    [tryMergeFilePaths_diverges] below), so it runs on fuel: [None]
    means the fuel ran out before the loop was left. *)
Fixpoint tryMergeFilePaths_loop (fuel : nat) (parent child : string)
    (slashPos prevSlashPos : Z) : option string :=
  match fuel with
  | O => None
  | S fuel' =>
      if slashPos =? npos then Some child
      else if (find child (substr parent slashPos npos) =? npos)
              && negb (prevSlashPos =? npos)
      then
        let strPathWithBase :=
          g_build_filename [substr parent 0 prevSlashPos; child] in
        if file_exists fs strPathWithBase
        then Some strPathWithBase
        else Some child
      else
        tryMergeFilePaths_loop fuel' parent child
          (find_last_of parent "/"%char (size_t_sub slashPos 1)) slashPos
  end.

(** [tryMergeFilePaths] *)
Definition tryMergeFilePaths (fuel : nat) (parent child : string)
  : option string :=
  tryMergeFilePaths_loop fuel parent child
    (find_last_of parent "/"%char npos) npos.

(** [tryFindExplicitFile] *)
Definition tryFindExplicitFile (fuel : nat) (basePath iconName : string)
  : option string :=
  if file_exists fs iconName then Some iconName
  else
    let strPathWithBase := g_build_filename [basePath; iconName] in
    if file_exists fs strPathWithBase then Some strPathWithBase
    else
      match tryMergeFilePaths fuel basePath iconName with
      | None => None
      | Some mergedIconName =>
          if negb (String.eqb mergedIconName iconName)
          then Some mergedIconName
          else Some ""%string
      end.

(** [IconFinder::hasImageExtension] *)
Definition hasImageExtension (filename : string) : bool :=
  existsb (g_str_has_suffix filename) ICON_TYPES.

(** The [for] loop of [findExistingIcon] over the extensions left. *)
Fixpoint probe_extensions (path iconName : string) (extensions : list string)
  : string :=
  match extensions with
  | [] => ""
  | extension :: rest =>
      let fullpath := g_build_filename [path; iconName +:+ extension] in
      if file_exists fs fullpath then fullpath
      else probe_extensions path iconName rest
  end.

(** [IconFinder::findExistingIcon] *)
Definition findExistingIcon (path iconName : string) : string :=
  if hasImageExtension iconName
  then
    let fullpath := g_build_filename [path; iconName] in
    if file_exists fs fullpath then fullpath else ""
  else probe_extensions path iconName ICON_TYPES.

(** The state of the loop of [IconFinder::find]: its two locals, and
    the directories handed to [findExistingIcon] so far. *)
Record search_state : Type := {
  best_size : Z;
  iconPath : string;
  probed : list ThemeSubdirectory
}.

Definition search_start : search_state :=
  {| best_size := 0; iconPath := ""; probed := [] |}.

(** One iteration of the loop. *)
Definition search_step (iconName : string) (st : search_state)
    (p : ThemeSubdirectory) : search_state :=
  if size p >? best_size st
  then
    let foundIcon := findExistingIcon (path p) iconName in
    if negb (StdString.empty foundIcon)
    then {| best_size := size p; iconPath := foundIcon;
            probed := probed st ++ [p] |}
    else {| best_size := best_size st; iconPath := iconPath st;
            probed := probed st ++ [p] |}
  else st.

Definition search_from (st : search_state) (searchPaths : list ThemeSubdirectory)
    (iconName : string) : search_state :=
  fold_left (search_step iconName) searchPaths st.

(** The size-ranked search that ends [IconFinder::find]. *)
Definition search (searchPaths : list ThemeSubdirectory) (iconName : string)
  : search_state :=
  search_from search_start searchPaths iconName.

(** [IconFinder::find]; [None] when [tryMergeFilePaths] has not come
    back within the fuel. *)
Definition find (fuel : nat) (self : IconFinder) (iconName : string)
  : option string :=
  let ranked := Some (iconPath (search (_searchPaths self) iconName)) in
  if Ascii.eqb (front iconName) "/"%char
  then
    match tryFindExplicitFile fuel (_basePath self) iconName with
    | None => None
    | Some explicitIconPath =>
        if negb (StdString.empty explicitIconPath)
        then Some explicitIconPath
        else ranked
    end
  else ranked.

(** [IconFinder::validDirectories] *)
Definition validDirectories (themePath directory : string) (size : Z)
  : list ThemeSubdirectory :=
  let globalHicolorTheme := g_build_filename [themePath; directory] in
  if file_exists fs globalHicolorTheme
  then [{| path := globalHicolorTheme; size := size |}]
  else [].

(** [IconFinder::addSubdirectoryByType] *)
Definition addSubdirectoryByType (themefile : GKeyFile)
    (directory themePath : string) : list ThemeSubdirectory :=
  match g_key_file_get_string themefile directory TYPE_PROPERTY with
  | None => []
  | Some type =>
      if String.eqb type FIXED_CONTEXT then
        match g_key_file_get_integer themefile directory SIZE_PROPERTY with
        | None => []
        | Some size => validDirectories themePath directory size
        end
      else if String.eqb type SCALABLE_CONTEXT then
        match g_key_file_get_integer themefile directory MAXSIZE_PROPERTY with
        | None => []
        | Some size => validDirectories themePath directory size
        end
      else if String.eqb type THRESHOLD_CONTEXT then
        match g_key_file_get_integer themefile directory SIZE_PROPERTY with
        | None => []
        | Some size =>
            let threshold :=
              match g_key_file_get_integer themefile directory THRESHOLD_PROPERTY with
              | Some threshold => threshold
              | None => 2
              end in
            validDirectories themePath directory (wrap_int (size + threshold))
        end
      else []
  end.

(** [IconFinder::searchIconPaths] *)
Fixpoint searchIconPaths (themefile : GKeyFile) (directories : list string)
    (themePath : string) : list ThemeSubdirectory :=
  match directories with
  | [] => []
  | directory :: rest =>
      match g_key_file_get_string themefile directory CONTEXT_PROPERTY with
      | None => searchIconPaths themefile rest themePath
      | Some context =>
          (if String.eqb context APPLICATIONS_TYPE
           then addSubdirectoryByType themefile directory themePath
           else [])
          ++ searchIconPaths themefile rest themePath
      end
  end.

(** [IconFinder::themeFileSearchPaths] *)
Definition themeFileSearchPaths (themePath : string) : list ThemeSubdirectory :=
  let themeFilePath := g_build_filename [themePath; THEME_INDEX_FILE] in
  match load_key_file fs themeFilePath with
  | None => []
  | Some themefile =>
      match g_key_file_get_string_list themefile ICON_THEME_KEY DIRECTORIES_PROPERTY with
      | None => []
      | Some directories => searchIconPaths themefile directories themePath
      end
  end.

(** The [while] loop of [themeDirSearchPaths] over the names read. *)
Fixpoint scanThemeDir (themeDir : string) (dirnames : list string)
  : list ThemeSubdirectory :=
  match dirnames with
  | [] => []
  | dirname :: rest =>
      let fullPath := g_build_filename [themeDir; dirname; "apps"%string] in
      if is_dir fs fullPath
      then
        if String.eqb dirname "scalable"
        then {| path := fullPath; size := 256 |} :: scanThemeDir themeDir rest
        else
          match iconSizeDirname dirname with
          | Some digits =>
              {| path := fullPath; size := atoi digits |}
                :: scanThemeDir themeDir rest
          | None => scanThemeDir themeDir rest
          end
      else scanThemeDir themeDir rest
  end.

(** [IconFinder::themeDirSearchPaths] *)
Definition themeDirSearchPaths (themeDir : string) : list ThemeSubdirectory :=
  match read_dir fs themeDir with
  | None => []
  | Some dirnames => scanThemeDir themeDir dirnames
  end.

(** [IconFinder::iconsFromThemePath] *)
Definition iconsFromThemePath (themeDir : string) : list ThemeSubdirectory :=
  if is_dir fs themeDir
  then
    let themeDirs := themeFileSearchPaths themeDir in
    {| path := themeDir; size := 1 |}
      :: (if (0 <? Z.of_nat (List.length themeDirs))
          then themeDirs
          else themeDirSearchPaths themeDir)
  else [].

(** [getSearchPaths] up to, and without, the closing [sort]: the
    entries in the order they are appended to [iconPaths]. *)
Definition collectSearchPaths (basePath : string) : list ThemeSubdirectory :=
  let hicolorDir := g_build_filename [basePath; HICOLOR_THEME_DIR] in
  let humanityDir := g_build_filename [basePath; HUMANITY_THEME_DIR] in
  let iconsPath := g_build_filename [basePath; ICONS_DIR] in
  let pixmapsPath := g_build_filename [basePath; PIXMAPS_PATH] in
  iconsFromThemePath hicolorDir
  ++ iconsFromThemePath humanityDir
  ++ (if is_dir fs iconsPath then [{| path := iconsPath; size := 1 |}] else [])
  ++ (if is_dir fs pixmapsPath then [{| path := pixmapsPath; size := 1 |}] else []).

(** The comparison handed to [sort]: [lhs.size > rhs.size]. *)
Definition larger_first (lhs rhs : ThemeSubdirectory) : bool :=
  size lhs >? size rhs.

(** [IconFinder::getSearchPaths] *)
Definition getSearchPaths (basePath : string) : list ThemeSubdirectory :=
  StdList.sort larger_first (collectSearchPaths basePath).

(** [IconFinder::IconFinder(basePath)] *)
Definition new_IconFinder (basePath : string) : IconFinder :=
  {| _searchPaths := getSearchPaths basePath; _basePath := basePath |}.

End WithFileSystem.

End IconFinder.

(* ===================================================================== *)
(** * desktop-hook.c *)
(* ===================================================================== *)

Module DesktopHook.
Import GLib.

Local Open Scope Z_scope.

(** [app_state_t]; the two times are [guint64]. *)
Record app_state_t : Type := {
  app_id : string;
  has_click : bool;
  has_desktop : bool;
  click_created : Z;
  desktop_created : Z
}.

(** How the process ends: [abort()], or a return from [main]. *)
Inductive termination : Type :=
| Aborted
| Exited (status : Z).

(** The calls that change the file system, in the order they are made
    (whether or not the call succeeds). *)
Inductive fs_action : Type :=
| g_unlink (path : string)
| g_mkdir_with_parents (path : string)
| g_file_set_contents (path : string) (contents : GKeyFile).

(** Index of the first entry of [app_array] whose [app_id] is [name]. *)
Fixpoint index_of_app (name : string) (app_array : list app_state_t) : option nat :=
  match app_array with
  | [] => None
  | state :: rest =>
      if String.eqb (app_id state) name
      then Some O
      else S <$> index_of_app name rest
  end.

(** [find_app_entry]: the returned pointer is the index of the entry
    in the array, which has grown by a fresh entry when none had the
    name. *)
Definition find_app_entry (name : string) (app_array : list app_state_t)
  : nat * list app_state_t :=
  match index_of_app name app_array with
  | Some i => (i, app_array)
  | None =>
      let newstate :=
        {| app_id := name; has_click := false; has_desktop := false;
           click_created := 0; desktop_created := 0 |} in
      (List.length app_array, app_array ++ [newstate])
  end.

Section WithEnvironment.

Variable fs : FileSystem.

(** What the program reads is the file system as it stands when
    [main] starts: the calls of the merge loop change the applications
    directory only, which is read before the loop. *)

(** [g_get_user_cache_dir()] and [g_get_user_data_dir()] *)
Variable user_cache_dir : string.
Variable user_data_dir : string.

(** Declared in helpers.h and defined outside this file:
    [app_id_to_triplet(app_id, NULL, NULL, NULL)] tells whether the
    identity parses; [manifest_to_desktop(symlinkdir, app_id)] gives the
    path of the package's own desktop file, or NULL;
    [desktop_to_exec(keyfile, from)] gives the launch command of the
    loaded desktop file, or NULL. *)
Variable app_id_to_triplet : string -> bool.
Variable manifest_to_desktop : string -> string -> option string.
Variable desktop_to_exec : GKeyFile -> string -> option string.

(** [creation_time] *)
Definition creation_time (dir filename : string) : Z :=
  time_created fs (g_build_filename [dir; filename]).

(** [add_click_package] *)
Definition add_click_package (dir name : string) (app_array : list app_state_t)
  : list app_state_t :=
  let '(i, app_array) := find_app_entry name app_array in
  alter (fun state =>
           {| app_id := app_id state;
              has_click := true;
              has_desktop := has_desktop state;
              click_created := creation_time dir name;
              desktop_created := desktop_created state |}) i app_array.

(** [name + strlen("click-")], cut at the first [".desktop"] in it.
    The caller has checked the prefix and the suffix, which cannot
    overlap, so the search finds one; the other branch stands for the
    write through the NULL that [g_strstr_len] would return. *)
Definition desktop_file_app_id (name : string) : string :=
  let appid := String.substring 6 (String.length name - 6) name in
  match String.index 0 ".desktop" appid with
  | Some cut => String.substring 0 cut appid
  | None => appid
  end.

(** [add_desktop_file] *)
Definition add_desktop_file (dir name : string) (app_array : list app_state_t)
  : list app_state_t :=
  if negb (g_str_has_suffix name ".desktop") then app_array
  else if negb (g_str_has_prefix name "click-") then app_array
  else
    let appid := desktop_file_app_id name in
    let '(i, app_array) := find_app_entry appid app_array in
    alter (fun state =>
             {| app_id := app_id state;
                has_click := has_click state;
                has_desktop := true;
                click_created := click_created state;
                desktop_created := creation_time dir name |}) i app_array.

(** [dir_for_each] *)
Definition dir_for_each (dirname : string)
    (func : string -> string -> list app_state_t -> list app_state_t)
    (app_array : list app_state_t) : list app_state_t :=
  match read_dir fs dirname with
  | None => app_array
  | Some filenames =>
      fold_left (fun app_array filename => func dirname filename app_array)
        filenames app_array
  end.

(** The key file [copy_desktop_file] serializes, from the one loaded. *)
Definition rewritten_key_file (keyfile : GKeyFile) (oldexec appdir app_id : string)
  : GKeyFile :=
  let keyfile :=
    if g_key_file_has_key keyfile "Desktop Entry" "Path"
    then
      match g_key_file_get_string keyfile "Desktop Entry" "Path" with
      | Some oldpath =>
          g_key_file_set_string keyfile "Desktop Entry" "XCanonicalOldPath" oldpath
      | None => keyfile
      end
    else keyfile in
  let path := g_build_filename [appdir; app_id] in
  let keyfile := g_key_file_set_string keyfile "Desktop Entry" "Path" path in
  let newexec := "aa-exec -p " +:+ app_id +:+ " -- " +:+ oldexec in
  g_key_file_set_string keyfile "Desktop Entry" "Exec" newexec.

(** [copy_desktop_file]: the write it ends in, or nothing when the
    source cannot be read or has no launch command.  The contents
    written are [g_key_file_to_data] of the key file, which reports no
    error; they are kept as the key file itself. *)
Definition copy_desktop_file (from to appdir app_id : string) : list fs_action :=
  match load_key_file fs from with
  | None => []
  | Some keyfile =>
      match desktop_to_exec keyfile from with
      | None => []
      | Some oldexec =>
          [g_file_set_contents to (rewritten_key_file keyfile oldexec appdir app_id)]
      end
  end.

Definition desktop_file_path (state : app_state_t) (desktopdir : string) : string :=
  g_build_filename [desktopdir; "click-" +:+ app_id state +:+ ".desktop"].

(** [build_desktop_file] *)
Definition build_desktop_file (state : app_state_t) (symlinkdir desktopdir : string)
  : list fs_action :=
  if negb (app_id_to_triplet (app_id state)) then []
  else
    match manifest_to_desktop symlinkdir (app_id state) with
    | None => []
    | Some indesktop =>
        copy_desktop_file indesktop (desktop_file_path state desktopdir)
          symlinkdir (app_id state)
    end.

(** [remove_desktop_file] *)
Definition remove_desktop_file (state : app_state_t) (desktopdir : string)
  : list fs_action :=
  [g_unlink (desktop_file_path state desktopdir)].

(** [g_file_test(path, G_FILE_TEST_EXISTS | G_FILE_TEST_IS_DIR)]: true
    when any of the requested tests is. *)
Definition exists_or_is_dir (path : string) : bool :=
  file_exists fs path || is_dir fs path.

(** The body of the merge loop of [main] for one entry: the new value
    of [desktopdirexists] and the file-system calls made. *)
Definition process_state (symlinkdir desktopdir : string)
    (desktopdirexists : bool) (state : app_state_t) : bool * list fs_action :=
  if has_click state && has_desktop state then
    if click_created state >? desktop_created state
    then (desktopdirexists,
          remove_desktop_file state desktopdir
          ++ build_desktop_file state symlinkdir desktopdir)
    else (desktopdirexists, [])
  else if has_click state then
    let '(desktopdirexists, made) :=
      if negb desktopdirexists
      then (mkdir_succeeds fs desktopdir, [g_mkdir_with_parents desktopdir])
      else (desktopdirexists, []) in
    (desktopdirexists,
     made ++ (if desktopdirexists
              then build_desktop_file state symlinkdir desktopdir
              else []))
  else if has_desktop state then
    (desktopdirexists, remove_desktop_file state desktopdir)
  else (desktopdirexists, []).

(** The merge loop of [main]. *)
Fixpoint process_all (symlinkdir desktopdir : string) (desktopdirexists : bool)
    (apparray : list app_state_t) : list fs_action :=
  match apparray with
  | [] => []
  | state :: rest =>
      let '(desktopdirexists, actions) :=
        process_state symlinkdir desktopdir desktopdirexists state in
      actions ++ process_all symlinkdir desktopdir desktopdirexists rest
  end.

Definition symlinkdir : string :=
  g_build_filename [user_cache_dir; "upstart-app-launch"%string; "desktop"%string].
Definition desktopdir : string :=
  g_build_filename [user_data_dir; "applications"%string].

(** The two scans of [main]: the array they leave, and
    [desktopdirexists].  Both tests are made on [symlinkdir], as in the
    source; nothing changes the file system between them. *)
Definition scan_directories : list app_state_t * bool :=
  let apparray := [] in
  let apparray :=
    if negb (exists_or_is_dir symlinkdir)
    then apparray
    else dir_for_each symlinkdir add_click_package apparray in
  if negb (exists_or_is_dir symlinkdir)
  then (apparray, false)
  else (dir_for_each desktopdir add_desktop_file apparray, true).

(** [main]: how the process ends and the file-system calls it made.
    [g_error] aborts the process, so the [return 1] under it is never
    reached. *)
Definition main (argc : Z) : termination * list fs_action :=
  if negb (argc =? 1) then (Aborted, [])
  else
    let '(apparray, desktopdirexists) := scan_directories in
    (Exited 0, process_all symlinkdir desktopdir desktopdirexists apparray).

End WithEnvironment.

End DesktopHook.

(* ===================================================================== *)
(** * Properties of the snap store backend *)
(* ===================================================================== *)

Section SnapBackend.
Import StdRegex AppStoreSnap.

Ltac run_call :=
  unfold hasAppId, verifyPackage, verifyAppname, findAppname, findVersion,
    try_catch_runtime_error, throw, pkgInfo, mbind, call_bind, mret, call_ret;
  simpl.

Lemma empty_true_iff (s : string) : StdString.empty s = true <-> s = ""%string.
Proof. unfold StdString.empty. apply String.eqb_eq. Qed.

Lemma empty_false_iff (s : string) : StdString.empty s = false <-> s <> ""%string.
Proof. unfold StdString.empty. apply String.eqb_neq. Qed.

(** The three fast checks of [hasAppId], in the order they are made. *)
Definition fast_reject (appId : AppID) : bool :=
  StdString.empty (package appId) || StdString.empty (version appId)
  || negb (regex_match (appname appId) appnameRegex).

Lemma fast_reject_true_iff (appId : AppID) :
  fast_reject appId = true <->
  package appId = ""%string \/ version appId = ""%string
  \/ regex_match (appname appId) appnameRegex = false.
Proof.
  unfold fast_reject.
  rewrite !orb_true_iff, !empty_true_iff, negb_true_iff. tauto.
Qed.

Lemma fast_reject_false_iff (appId : AppID) :
  fast_reject appId = false <->
  package appId <> ""%string /\ version appId <> ""%string
  /\ regex_match (appname appId) appnameRegex = true.
Proof.
  unfold fast_reject.
  rewrite !orb_false_iff, !empty_false_iff, negb_false_iff. tauto.
Qed.

Lemma hasAppId_rejected checkPkgInfo registry appId log :
  fast_reject appId = true ->
  hasAppId checkPkgInfo registry appId log = (Returns false, log).
Proof.
  unfold fast_reject. intros H. run_call.
  destruct (StdString.empty (package appId) || StdString.empty (version appId));
    [reflexivity|].
  simpl in H. rewrite H. reflexivity.
Qed.

Lemma hasAppId_looked_up checkPkgInfo registry appId log :
  fast_reject appId = false ->
  snd (hasAppId checkPkgInfo registry appId log) = log ++ [package appId].
Proof.
  unfold fast_reject. intros H. run_call.
  apply orb_false_iff in H as [H1 H2]. rewrite H1, H2.
  destruct (snapdInfo registry (package appId)); reflexivity.
Qed.

Lemma app_singleton_neq {A : Type} (l : list A) (x : A) : l ++ [x] <> l.
Proof.
  intros H. apply (f_equal (@List.length A)) in H.
  rewrite List.length_app in H. simpl in H. lia.
Qed.

Example appnameRegex_accepts :
  List.map (fun s => regex_match s appnameRegex)
    ["a"; "calc"; "calc-cli"; "A9-z"; "0-1-2"]%string
  = [true; true; true; true; true].
Proof. reflexivity. Qed.

Example appnameRegex_rejects :
  List.map (fun s => regex_match s appnameRegex)
    [""; "-calc"; "calc-"; "calc--cli"; "calc_cli"; "calc cli"; "calc.cli"]%string
  = [false; false; false; false; false; false; false].
Proof. reflexivity. Qed.

(** C1. [hasAppId] answers [false] and leaves the lookup log as it
    found it whenever the package is empty, the version is empty, or the
    appname does not match [appnameRegex]; and a call that did add a
    lookup to the log was made on an AppID that passes all three checks
    (it then looks up exactly the AppID's package). *)
Theorem hasAppId_rejects_without_lookup :
  forall (checkPkgInfo : option PkgInfo -> AppID -> bool)
         (registry : Registry) (appId : AppID) (log : list Package),
    (package appId = ""%string \/ version appId = ""%string
     \/ regex_match (appname appId) appnameRegex = false ->
     hasAppId checkPkgInfo registry appId log = (Returns false, log))
    /\ (snd (hasAppId checkPkgInfo registry appId log) <> log ->
        (package appId <> ""%string /\ version appId <> ""%string
         /\ regex_match (appname appId) appnameRegex = true)
        /\ snd (hasAppId checkPkgInfo registry appId log)
           = log ++ [package appId]).
Proof.
  intros checkPkgInfo registry appId log. split.
  - intros H. apply hasAppId_rejected. now apply fast_reject_true_iff.
  - intros H. destruct (fast_reject appId) eqn:E.
    + rewrite (hasAppId_rejected _ _ _ _ E) in H. now elim H.
    + split; [now apply fast_reject_false_iff | now apply hasAppId_looked_up].
Qed.

(** A daemon that knows three packages and cannot be reached for a
    fourth. *)
Definition two_apps : AppNameSet :=
  {| elements := ["calc"; "calc-cli"]%string; elements_ordered := eq_refl |}.
Definition one_app : AppNameSet :=
  {| elements := ["clock"%string]; elements_ordered := eq_refl |}.
Definition no_apps : AppNameSet :=
  {| elements := []; elements_ordered := eq_refl |}.

Definition sample_daemon (package : Package) : outcome (option PkgInfo) :=
  if String.eqb package "calculator"
  then Returns (Some {| appnames := two_apps; revision := "x3" |})
  else if String.eqb package "clock"
  then Returns (Some {| appnames := one_app; revision := "17" |})
  else if String.eqb package "core"
  then Returns (Some {| appnames := no_apps; revision := "1" |})
  else if String.eqb package "offline"
  then Throws (runtime_error "snapd: connection refused")
  else Returns None.

Definition sample_registry : Registry := {| snapdInfo := sample_daemon |}.

Definition sample_check (pkginfo : option PkgInfo) (appId : AppID) : bool :=
  match pkginfo with
  | Some info => String.eqb (revision info) (version appId)
  | None => false
  end.

Lemma hasAppId_rejects_without_lookup_witness :
  hasAppId sample_check sample_registry
    {| package := "calculator"; appname := "calc--cli"; version := "x3" |} []
  = (Returns false, []).
Proof.
  apply (proj1 (hasAppId_rejects_without_lookup sample_check sample_registry
                  {| package := "calculator"; appname := "calc--cli";
                     version := "x3" |} [])).
  right; right. reflexivity.
Defined.

(** C9. [findVersion] returns the revision of the package when the
    daemon has metadata for it, and returns the empty version, not an
    exception, when it has none. *)
Theorem findVersion_revision_or_empty :
  forall (registry : Registry) (package : Package) (appname : AppName)
         (log : list Package),
    (forall info : PkgInfo,
        snapdInfo registry package = Returns (Some info) ->
        findVersion registry package appname log
        = (Returns (revision info), log ++ [package]))
    /\ (snapdInfo registry package = Returns None ->
        findVersion registry package appname log
        = (Returns ""%string, log ++ [package])).
Proof.
  intros registry package appname log. split.
  - intros info H. run_call. rewrite H. reflexivity.
  - intros H. run_call. rewrite H. reflexivity.
Qed.

Lemma findVersion_revision_or_empty_witness :
  findVersion sample_registry "calculator" "calc" [] = (Returns "x3"%string, ["calculator"%string])
  /\ findVersion sample_registry "unknown" "calc" [] = (Returns ""%string, ["unknown"%string]).
Proof.
  split.
  - apply (proj1 (findVersion_revision_or_empty sample_registry "calculator" "calc" [])
             {| appnames := two_apps; revision := "x3" |}).
    reflexivity.
  - apply (proj2 (findVersion_revision_or_empty sample_registry "unknown" "calc" [])).
    reflexivity.
Defined.

(** ** Name order inside a [std::set<AppName>] *)

Lemma strictly_increasing_head (x : AppName) (l : list AppName) :
  strictly_increasing (x :: l) = true ->
  forall b, In b l -> String.ltb x b = true.
Proof.
  simpl. intros H b Hb. apply andb_true_iff in H as [H _].
  rewrite forallb_forall in H. now apply H.
Qed.

Lemma strictly_increasing_tail (x : AppName) (l : list AppName) :
  strictly_increasing (x :: l) = true -> strictly_increasing l = true.
Proof. simpl. intros H. now apply andb_true_iff in H as [_ H]. Qed.

Lemma strictly_increasing_last (l : list AppName) (d : AppName) :
  strictly_increasing l = true ->
  forall b, In b l -> b = List.last l d \/ String.ltb b (List.last l d) = true.
Proof.
  induction l as [|x l IH]; intros Hs b Hb; [destruct Hb|].
  destruct l as [|y l'].
  - destruct Hb as [->|[]]. now left.
  - change (List.last (x :: y :: l') d) with (List.last (y :: l') d).
    destruct Hb as [->|Hb].
    + right. apply (strictly_increasing_head _ _ Hs).
      clear. generalize y. induction l' as [|z l'' IH']; intros y0.
      * now left.
      * right. apply IH'.
    + apply IH; [now apply strictly_increasing_tail in Hs | exact Hb].
Qed.

Lemma last_in {A : Type} (l : list A) (d : A) : l <> [] -> In (List.last l d) l.
Proof.
  induction l as [|x l IH]; [congruence|]. intros _.
  destruct l as [|y l']; [now left|].
  right. apply IH. discriminate.
Qed.

(** [*begin()] is the least and [*rbegin()] the greatest element. *)
Lemma set_begin_least (s : AppNameSet) :
  elements s <> [] ->
  In (set_begin s) (elements s)
  /\ forall b, In b (elements s) -> b = set_begin s \/ String.ltb (set_begin s) b = true.
Proof.
  unfold set_begin. destruct s as [l Hl]; simpl.
  destruct l as [|x l]; [congruence|]. intros _. simpl. split; [now left|].
  intros b [->|Hb]; [now left|right].
  now apply (strictly_increasing_head _ _ Hl).
Qed.

Lemma set_rbegin_greatest (s : AppNameSet) :
  elements s <> [] ->
  In (set_rbegin s) (elements s)
  /\ forall b, In b (elements s) -> b = set_rbegin s \/ String.ltb b (set_rbegin s) = true.
Proof.
  unfold set_rbegin. destruct s as [l Hl]; simpl. intros Hne. split.
  - now apply last_in.
  - now apply strictly_increasing_last.
Qed.

Lemma set_empty_true_iff (s : AppNameSet) : set_empty s = true <-> elements s = [].
Proof. unfold set_empty. destruct (elements s); split; congruence. Qed.

Lemma findAppname_known registry package card log info :
  snapdInfo registry package = Returns (Some info) ->
  findAppname registry package card log =
  if set_empty (appnames info)
  then (Throws (EmptyPackage package), log ++ [package])
  else
    match card with
    | FIRST_LISTED => (Returns (set_begin (appnames info)), log ++ [package])
    | LAST_LISTED => (Returns (set_rbegin (appnames info)), log ++ [package])
    | ONLY_LISTED =>
        if negb (set_size (appnames info) =? 1)%nat
        then (Throws (AmbiguousPackage package), log ++ [package])
        else (Returns (set_begin (appnames info)), log ++ [package])
    end.
Proof.
  intros H. run_call. rewrite H.
  destruct (set_empty (appnames info)); [reflexivity|].
  destruct card; try reflexivity.
  destruct (negb _); reflexivity.
Qed.

(** C2, as the code has it.  [findAppname] throws [PackageNotFound]
    when the daemon has no metadata for the package and [EmptyPackage]
    when the package declares no app, whatever the wildcard; under
    [ONLY_LISTED] it throws [AmbiguousPackage] when the package declares
    two apps or more; a package with exactly one app yields that app
    under each of the three wildcards; and on every non-empty app set
    [FIRST_LISTED] yields its least and [LAST_LISTED] its greatest name
    in the order of [std::string]. *)
Theorem findAppname_resolution :
  forall (registry : Registry) (package : Package) (log : list Package),
    (snapdInfo registry package = Returns None ->
     forall card,
       findAppname registry package card log
       = (Throws (PackageNotFound package), log ++ [package]))
    /\ (forall info : PkgInfo,
          snapdInfo registry package = Returns (Some info) ->
          (set_size (appnames info) = 0%nat ->
           forall card,
             findAppname registry package card log
             = (Throws (EmptyPackage package), log ++ [package]))
          /\ ((2 <= set_size (appnames info))%nat ->
              findAppname registry package ONLY_LISTED log
              = (Throws (AmbiguousPackage package), log ++ [package]))
          /\ (forall only : AppName,
                elements (appnames info) = [only] ->
                forall card,
                  findAppname registry package card log
                  = (Returns only, log ++ [package]))
          /\ ((1 <= set_size (appnames info))%nat ->
              exists first last : AppName,
                findAppname registry package FIRST_LISTED log
                = (Returns first, log ++ [package])
                /\ findAppname registry package LAST_LISTED log
                   = (Returns last, log ++ [package])
                /\ In first (elements (appnames info))
                /\ In last (elements (appnames info))
                /\ forall b : AppName,
                     In b (elements (appnames info)) ->
                     (b = first \/ String.ltb first b = true)
                     /\ (b = last \/ String.ltb b last = true))).
Proof.
  intros registry package log. split.
  - intros H card. run_call. rewrite H. reflexivity.
  - intros info H. repeat split.
    + intros Hsz card. rewrite (findAppname_known _ _ _ _ _ H).
      unfold set_size in Hsz. apply List.length_zero_iff_nil in Hsz.
      apply set_empty_true_iff in Hsz. now rewrite Hsz.
    + intros Hsz. rewrite (findAppname_known _ _ _ _ _ H).
      unfold set_size in *. unfold set_empty.
      destruct (elements (appnames info)) as [|x [|y l]]; simpl in *; try lia.
      reflexivity.
    + intros only Hel card. rewrite (findAppname_known _ _ _ _ _ H).
      unfold set_empty, set_size, set_begin, set_rbegin. rewrite Hel. simpl.
      destruct card; reflexivity.
    + intros Hsz.
      assert (Hne : elements (appnames info) <> []).
      { unfold set_size in Hsz. destruct (elements (appnames info)); simpl in *;
          [lia | discriminate]. }
      exists (set_begin (appnames info)), (set_rbegin (appnames info)).
      rewrite !(findAppname_known _ _ _ _ _ H).
      destruct (set_empty (appnames info)) eqn:E;
        [apply set_empty_true_iff in E; contradiction|].
      destruct (set_begin_least _ Hne) as [Hb1 Hb2].
      destruct (set_rbegin_greatest _ Hne) as [Hr1 Hr2].
      repeat split; auto.
Qed.

Lemma findAppname_resolution_witness :
  findAppname sample_registry "unknown" ONLY_LISTED []
  = (Throws (PackageNotFound "unknown"), ["unknown"%string])
  /\ findAppname sample_registry "core" FIRST_LISTED []
     = (Throws (EmptyPackage "core"), ["core"%string])
  /\ findAppname sample_registry "calculator" ONLY_LISTED []
     = (Throws (AmbiguousPackage "calculator"), ["calculator"%string])
  /\ findAppname sample_registry "clock" LAST_LISTED []
     = (Returns "clock"%string, ["clock"%string]).
Proof.
  pose proof (findAppname_resolution sample_registry "unknown" []) as [Hnone _].
  pose proof (findAppname_resolution sample_registry "core" []) as [_ Hcore].
  pose proof (findAppname_resolution sample_registry "calculator" []) as [_ Hcalc].
  pose proof (findAppname_resolution sample_registry "clock" []) as [_ Hclock].
  split; [|split; [|split]].
  - apply Hnone. reflexivity.
  - apply (proj1 (Hcore _ eq_refl)). reflexivity.
  - apply (proj1 (proj2 (Hcalc _ eq_refl))). vm_compute. lia.
  - apply (proj1 (proj2 (proj2 (Hclock _ eq_refl)))). reflexivity.
Defined.

(** The wording of C2 in the specification fails where the app set is
    empty: its size is not 1,
    the wildcard is [ONLY_LISTED], and the exception is [EmptyPackage],
    which is not [AmbiguousPackage]. *)
Lemma findAppname_only_listed_empty_set :
  snapdInfo sample_registry "core"
  = Returns (Some {| appnames := no_apps; revision := "1" |})
  /\ set_size no_apps <> 1%nat
  /\ fst (findAppname sample_registry "core" ONLY_LISTED [])
     = Throws (EmptyPackage "core")
  /\ EmptyPackage "core" <> AmbiguousPackage "core".
Proof.
  repeat split; try reflexivity; discriminate.
Qed.

(** X1.  [verifyPackage] turns a [std::runtime_error] of the lookup
    into [false]. *)
Theorem verifyPackage_catches :
  forall (registry : Registry) (package : Package) (what : string)
         (log : list Package),
    snapdInfo registry package = Throws (runtime_error what) ->
    verifyPackage registry package log = (Returns false, log ++ [package]).
Proof. intros registry package what log H. run_call. rewrite H. reflexivity. Qed.

Lemma verifyPackage_catches_witness :
  verifyPackage sample_registry "offline" [] = (Returns false, ["offline"%string]).
Proof.
  apply (verifyPackage_catches sample_registry "offline"
           "snapd: connection refused" []).
  reflexivity.
Defined.

(** [hasAppId] and [verifyAppname] have no handler: once the fast
    checks are passed, what the lookup throws reaches the caller. *)
Lemma hasAppId_propagates checkPkgInfo registry appId e log :
  fast_reject appId = false ->
  snapdInfo registry (package appId) = Throws e ->
  hasAppId checkPkgInfo registry appId log = (Throws e, log ++ [package appId]).
Proof.
  unfold fast_reject. intros Hf H. run_call.
  apply orb_false_iff in Hf as [H1 H2]. rewrite H1, H2, H. reflexivity.
Qed.

Lemma verifyAppname_propagates registry package appname e log :
  regex_match appname appnameRegex = true ->
  snapdInfo registry package = Throws e ->
  verifyAppname registry package appname log = (Throws e, log ++ [package]).
Proof. intros Hm H. run_call. rewrite Hm, H. reflexivity. Qed.

(** C3, on a daemon whose lookup of the package throws a
    [std::runtime_error]: [verifyPackage] answers [false], while
    [hasAppId] and [verifyAppname] let the exception through. *)
Theorem daemon_error_reaches_caller :
  forall checkPkgInfo : option PkgInfo -> AppID -> bool,
    let e := runtime_error "snapd: connection refused" in
    snapdInfo sample_registry "offline" = Throws e
    /\ fst (verifyPackage sample_registry "offline" []) = Returns false
    /\ fst (hasAppId checkPkgInfo sample_registry
              {| package := "offline"; appname := "app"; version := "1" |} [])
       = Throws e
    /\ fst (verifyAppname sample_registry "offline" "app" []) = Throws e.
Proof.
  intros checkPkgInfo e. repeat split.
Qed.

End SnapBackend.

(* ===================================================================== *)
(** * Properties of [std::list::sort] under a comparison of integer keys *)
(* ===================================================================== *)

Section SortByKey.
Import StdList.

Context {A : Type}.
Variable key : A -> Z.

(** [comp a b] holds when the key of [a] is strictly the greater. *)
Definition by_key_descending (a b : A) : bool := (key a >? key b)%Z.

Local Abbreviation comp := by_key_descending.

(** No element is followed, anywhere later, by one of a greater key. *)
Definition descending : list A -> Prop :=
  StronglySorted (fun a b => (key b <= key a)%Z).

(** The elements whose key is [k], in the order they have in the list. *)
Definition with_key (k : Z) (l : list A) : list A :=
  List.filter (fun a => (key a =? k)%Z) l.

Lemma merge_nil_l (l2 : list A) : merge comp [] l2 = l2.
Proof. destruct l2; reflexivity. Qed.

Lemma merge_nil_r (l1 : list A) : merge comp l1 [] = l1.
Proof. destruct l1; reflexivity. Qed.

Lemma merge_cons (a1 a2 : A) (l1 l2 : list A) :
  merge comp (a1 :: l1) (a2 :: l2) =
  if comp a2 a1
  then a2 :: merge comp (a1 :: l1) l2
  else a1 :: merge comp l1 (a2 :: l2).
Proof. reflexivity. Qed.

Lemma merge_Forall (P : A -> Prop) (l1 l2 : list A) :
  Forall P l1 -> Forall P l2 -> Forall P (merge comp l1 l2).
Proof.
  revert l2. induction l1 as [|a1 l1 IH1]; intros l2 H1 H2.
  - now rewrite merge_nil_l.
  - induction l2 as [|a2 l2 IH2].
    + now rewrite merge_nil_r.
    + rewrite merge_cons. destruct (comp a2 a1).
      * constructor; [now inversion H2 | apply IH2; now inversion H2].
      * constructor; [now inversion H1 | apply IH1; [now inversion H1 | exact H2]].
Qed.

Lemma merge_descending (l1 l2 : list A) :
  descending l1 -> descending l2 -> descending (merge comp l1 l2).
Proof.
  unfold descending.
  revert l2. induction l1 as [|a1 l1 IH1]; intros l2 H1 H2.
  - now rewrite merge_nil_l.
  - induction l2 as [|a2 l2 IH2].
    + now rewrite merge_nil_r.
    + rewrite merge_cons.
      apply StronglySorted_inv in H1 as [H1s H1f].
      apply StronglySorted_inv in H2 as [H2s H2f].
      destruct (comp a2 a1) eqn:E; unfold by_key_descending in E.
      * apply Z.gtb_lt in E. constructor; [now apply IH2|].
        apply merge_Forall; [|exact H2f].
        constructor; [lia|].
        eapply List.Forall_impl; [|exact H1f]. simpl. intros; lia.
      * assert (key a2 <= key a1)%Z by (destruct (Z.gtb_spec (key a2) (key a1)); [discriminate | lia]).
        constructor.
        -- apply IH1; [exact H1s | now constructor].
        -- apply merge_Forall; [exact H1f|].
           constructor; [lia|].
           eapply List.Forall_impl; [|exact H2f]. simpl. intros; lia.
Qed.

Lemma with_key_none (k : Z) (l : list A) :
  Forall (fun a => key a <> k) l -> with_key k l = [].
Proof.
  unfold with_key. induction 1 as [|a l Ha _ IH]; [reflexivity|].
  simpl. destruct (Z.eqb_spec (key a) k); [contradiction | exact IH].
Qed.

Lemma with_key_cons (k : Z) (a : A) (l : list A) :
  with_key k (a :: l) =
  if (key a =? k)%Z then a :: with_key k l else with_key k l.
Proof. reflexivity. Qed.

Lemma with_key_app (k : Z) (l1 l2 : list A) :
  with_key k (l1 ++ l2) = with_key k l1 ++ with_key k l2.
Proof. apply List.filter_app. Qed.

(** Merging keeps, key by key, the elements of the first list ahead of
    those of the second, provided the first list is descending. *)
Lemma merge_with_key (k : Z) (l1 l2 : list A) :
  descending l1 ->
  with_key k (merge comp l1 l2) = with_key k l1 ++ with_key k l2.
Proof.
  revert l2. induction l1 as [|a1 l1 IH1]; intros l2 H1.
  - now rewrite merge_nil_l.
  - induction l2 as [|a2 l2 IH2].
    + rewrite merge_nil_r. now rewrite List.app_nil_r.
    + rewrite merge_cons.
      pose proof H1 as H1'.
      apply StronglySorted_inv in H1 as [H1s H1f].
      destruct (comp a2 a1) eqn:E; unfold by_key_descending in E.
      * apply Z.gtb_lt in E.
        rewrite with_key_cons, IH2, (with_key_cons k a2 l2).
        destruct (Z.eqb_spec (key a2) k) as [Hk|Hk]; [|reflexivity].
        (* [a2] has key [k]: nothing of [a1 :: l1] has *)
        rewrite (with_key_none k (a1 :: l1)); [reflexivity|].
        constructor; [lia|].
        eapply List.Forall_impl; [|exact H1f]. simpl. intros; lia.
      * rewrite with_key_cons, (IH1 _ H1s), (with_key_cons k a1 l1).
        destruct (key a1 =? k)%Z; reflexivity.
Qed.

Lemma merge_Permutation (l1 l2 : list A) :
  Permutation (merge comp l1 l2) (l1 ++ l2).
Proof.
  revert l2. induction l1 as [|a1 l1 IH1]; intros l2.
  - now rewrite merge_nil_l.
  - induction l2 as [|a2 l2 IH2].
    + rewrite merge_nil_r. now rewrite List.app_nil_r.
    + rewrite merge_cons. destruct (comp a2 a1).
      * rewrite IH2. apply Permutation_middle.
      * simpl. now rewrite IH1.
Qed.

(** The elements held by the bins, oldest first: a higher bin holds
    elements that came earlier than those of a lower one. *)
Definition bins_contents (bins : list (list A)) : list A :=
  List.concat (List.rev bins).

(** [out] holds the elements of [src], and key by key in the same order. *)
Definition keeps_order (out src : list A) : Prop :=
  (forall k, with_key k out = with_key k src) /\ Permutation out src.

Lemma bins_contents_cons (b : list A) (bins : list (list A)) :
  bins_contents (b :: bins) = bins_contents bins ++ b.
Proof.
  unfold bins_contents. simpl. rewrite List.concat_app. simpl.
  now rewrite List.app_nil_r.
Qed.

Lemma keeps_order_merge (l1 l2 : list A) :
  descending l1 -> keeps_order (merge comp l1 l2) (l1 ++ l2).
Proof.
  intros H. split.
  - intros k. now rewrite merge_with_key, with_key_app.
  - apply merge_Permutation.
Qed.

Lemma keeps_order_trans (l1 l2 l3 : list A) :
  keeps_order l1 l2 -> keeps_order l2 l3 -> keeps_order l1 l3.
Proof.
  intros [H1 P1] [H2 P2]. split.
  - intros k. now rewrite H1.
  - now rewrite P1.
Qed.

Lemma keeps_order_app_l (l l1 l2 : list A) :
  keeps_order l1 l2 -> keeps_order (l ++ l1) (l ++ l2).
Proof.
  intros [H P]. split.
  - intros k. now rewrite !with_key_app, H.
  - now apply Permutation_app_head.
Qed.

Lemma keeps_order_refl (l : list A) : keeps_order l l.
Proof. split; [reflexivity | apply Permutation_refl]. Qed.

Lemma descending_singleton (x : A) : descending [x].
Proof. repeat constructor. Qed.

Lemma carry_into_spec (bins : list (list A)) :
  forall carry,
    Forall descending bins -> descending carry ->
    Forall descending (carry_into comp carry bins)
    /\ keeps_order (bins_contents (carry_into comp carry bins))
         (bins_contents bins ++ carry).
Proof.
  induction bins as [|b bins IH]; intros carry Hb Hc.
  - simpl. split; [now repeat constructor|].
    unfold bins_contents. simpl. rewrite List.app_nil_r. apply keeps_order_refl.
  - apply Forall_cons_iff in Hb as [Hb Hbins].
    destruct b as [|a b'].
    + simpl. split; [now constructor|].
      rewrite !bins_contents_cons, List.app_nil_r. apply keeps_order_refl.
    + change (carry_into comp carry ((a :: b') :: bins))
        with ([] :: carry_into comp (merge comp (a :: b') carry) bins).
      destruct (IH (merge comp (a :: b') carry) Hbins
                  (merge_descending _ _ Hb Hc)) as [IH1 IH2].
      split; [constructor; [constructor | exact IH1]|].
      rewrite !bins_contents_cons, List.app_nil_r.
      eapply keeps_order_trans; [exact IH2|].
      rewrite <- List.app_assoc. apply keeps_order_app_l.
      now apply keeps_order_merge.
Qed.

Lemma fill_bins_spec (l : list A) :
  forall bins,
    Forall descending bins ->
    Forall descending (fold_left (fun bins x => carry_into comp [x] bins) l bins)
    /\ keeps_order
         (bins_contents (fold_left (fun bins x => carry_into comp [x] bins) l bins))
         (bins_contents bins ++ l).
Proof.
  induction l as [|x l IH]; intros bins Hb.
  - simpl. split; [exact Hb|]. rewrite List.app_nil_r. apply keeps_order_refl.
  - simpl.
    destruct (carry_into_spec bins [x] Hb (descending_singleton x)) as [H1 H2].
    destruct (IH _ H1) as [IH1 IH2].
    split; [exact IH1|].
    eapply keeps_order_trans; [exact IH2|].
    change (x :: l) with ([x] ++ l). rewrite List.app_assoc.
    destruct H2 as [H2k H2p]. split.
    + intros k. now rewrite !with_key_app, H2k, with_key_app.
    + now apply Permutation_app_tail.
Qed.

Lemma collapse_spec (bins : list (list A)) :
  forall acc,
    Forall descending bins -> descending acc ->
    descending (collapse comp acc bins)
    /\ keeps_order (collapse comp acc bins) (bins_contents bins ++ acc).
Proof.
  induction bins as [|b bins IH]; intros acc Hb Ha.
  - simpl. split; [exact Ha | apply keeps_order_refl].
  - apply Forall_cons_iff in Hb as [Hb Hbins]. simpl.
    destruct (IH (merge comp b acc) Hbins (merge_descending _ _ Hb Ha))
      as [IH1 IH2].
    split; [exact IH1|].
    eapply keeps_order_trans; [exact IH2|].
    rewrite bins_contents_cons, <- List.app_assoc. apply keeps_order_app_l.
    now apply keeps_order_merge.
Qed.

(** [sort] under a descending comparison of keys: the result is
    descending, is a permutation of the input, and lists the elements of
    each key in the order the input had them. *)
Lemma sort_by_key_descending (l : list A) :
  descending (sort comp l) /\ keeps_order (sort comp l) l.
Proof.
  unfold sort.
  destruct (fill_bins_spec l [] (List.Forall_nil _)) as [H1 H2].
  destruct (collapse_spec _ [] H1 (SSorted_nil _)) as [H3 H4].
  split; [exact H3|].
  eapply keeps_order_trans; [exact H4|].
  rewrite List.app_nil_r. exact H2.
Qed.

End SortByKey.

(* ===================================================================== *)
(** * Properties of [g_build_filename] *)
(* ===================================================================== *)

Section FileNames.
Import GLib.

Example g_build_filename_joins :
  List.map g_build_filename
    [ ["/opt/app"; "icons"]; ["/opt/app/"; "/icons/hicolor"];
      ["/opt/app"; "/pixmaps/"]; ["/themes/48"; "/abs/icon.png"];
      ["/"; "icon.png"]; [""; "/icon.png"]; ["dir"; ""; "apps"] ]%string
  = [ "/opt/app/icons"; "/opt/app/icons/hicolor"; "/opt/app/pixmaps/";
      "/themes/48/abs/icon.png"; "/icon.png"; "/icon.png"; "dir/apps" ]%string.
Proof. reflexivity. Qed.

Lemma append_empty_inv (s1 s2 : string) :
  s1 +:+ s2 = ""%string -> s1 = ""%string /\ s2 = ""%string.
Proof. destruct s1; simpl; [auto | discriminate]. Qed.

Lemma string_rev_empty_inv (s : string) : string_rev s = ""%string -> s = ""%string.
Proof.
  destruct s as [|c s]; [reflexivity|]. simpl. intros H.
  apply append_empty_inv in H as [_ H]. discriminate.
Qed.

Lemma skip_separators_app (s1 s2 : string) :
  skip_separators (s1 +:+ s2) = ""%string -> skip_separators s2 = ""%string.
Proof.
  induction s1 as [|c s1 IH]; simpl; [auto|].
  destruct (is_separator c); [exact IH | discriminate].
Qed.

(** An element that is nothing but separators once stripped is nothing
    but separators. *)
Lemma strip_separators_empty (s : string) :
  strip_separators s = ""%string -> skip_separators s = ""%string.
Proof.
  unfold strip_separators. intros H. apply string_rev_empty_inv in H.
  induction s as [|c s IH]; [reflexivity|]. simpl in *.
  destruct (is_separator c) eqn:E; [now apply IH|].
  simpl in H. apply skip_separators_app in H. simpl in H. now rewrite E in H.
Qed.

Lemma leading_separators_all (s : string) :
  skip_separators s = ""%string -> leading_separators s = s.
Proof.
  induction s as [|c s IH]; [reflexivity|]. simpl.
  destruct (is_separator c); [intros H; now rewrite IH | discriminate].
Qed.

Lemma skip_separators_all_app (s1 s2 : string) :
  skip_separators s1 = ""%string -> skip_separators s2 = ""%string ->
  skip_separators (s1 +:+ s2) = ""%string.
Proof.
  induction s1 as [|c s1 IH]; simpl; [auto|].
  destruct (is_separator c); [exact IH | discriminate].
Qed.

Lemma skip_separators_rev (s : string) :
  skip_separators s = ""%string -> skip_separators (string_rev s) = ""%string.
Proof.
  induction s as [|c s IH]; [reflexivity|]. simpl.
  destruct (is_separator c) eqn:E; [|discriminate].
  intros H. apply skip_separators_all_app; [now apply IH|]. simpl. now rewrite E.
Qed.

Lemma trailing_separators_all (s : string) :
  skip_separators s = ""%string -> s <> ""%string ->
  trailing_separators s <> ""%string.
Proof.
  intros H Hne. unfold trailing_separators.
  rewrite leading_separators_all by now apply skip_separators_rev.
  intros E. now apply string_rev_empty_inv in E.
Qed.

Lemma nonempty_true_iff (s : string) : nonempty s = true <-> s <> ""%string.
Proof. unfold nonempty. rewrite negb_true_iff. apply String.eqb_neq. Qed.

(** Joining a directory and a non-empty name never gives the empty
    file name. *)
Lemma g_build_filename_nonempty (dir name : string) :
  name <> ""%string -> g_build_filename [dir; name] <> ""%string.
Proof.
  intros Hname. unfold g_build_filename. simpl.
  assert (Hn : nonempty name = true) by now apply nonempty_true_iff.
  rewrite Hn.
  assert (Hall : strip_separators name = ""%string ->
                 trailing_separators name <> ""%string).
  { intros H. apply trailing_separators_all; [|exact Hname].
    now apply strip_separators_empty. }
  destruct (nonempty dir) eqn:Hd.
  - simpl. intros H.
    apply append_empty_inv in H as [_ H]. apply append_empty_inv in H as [H Ht].
    destruct (nonempty (strip_separators dir)) eqn:Hsd;
      destruct (nonempty (strip_separators name)) eqn:Hsn; simpl in H.
    + apply nonempty_true_iff in Hsd. destruct (strip_separators dir); [congruence|discriminate].
    + apply nonempty_true_iff in Hsd. congruence.
    + apply nonempty_true_iff in Hsn. congruence.
    + apply Hall; [|exact Ht].
      destruct (String.eqb_spec (strip_separators name) ""); [assumption|].
      unfold nonempty in Hsn. apply negb_false_iff, String.eqb_eq in Hsn. exact Hsn.
  - destruct (nonempty (strip_separators name)) eqn:Hsn; [|exact Hname].
    intros H. apply append_empty_inv in H as [_ H].
    apply append_empty_inv in H as [H _].
    apply nonempty_true_iff in Hsn. congruence.
Qed.

End FileNames.

(* ===================================================================== *)
(** * Properties of the icon finder *)
(* ===================================================================== *)

Section IconSearch.
Import StdString GLib IconFinder.

Local Open Scope Z_scope.

Variable fs : FileSystem.
Variable iconName : string.

(** The file names [findExistingIcon] tries in a directory, in the
    order it tries them. *)
Definition candidate_names (iconName : string) : list string :=
  if hasImageExtension iconName
  then [iconName]
  else List.map (fun extension => iconName +:+ extension) ICON_TYPES.

(** A directory holds a match for the icon name when one of the
    candidate names, joined to the directory, exists. *)
Definition holds_match (fs : FileSystem) (dir iconName : string) : Prop :=
  exists c, In c (candidate_names iconName)
            /\ file_exists fs (g_build_filename [dir; c]) = true.

Local Abbreviation found p := (findExistingIcon fs (path p) iconName).

Lemma findExistingIcon_first_existing (dir : string) :
  findExistingIcon fs dir iconName =
  match List.find (file_exists fs)
          (List.map (fun c => g_build_filename [dir; c]) (candidate_names iconName))
  with
  | Some fullpath => fullpath
  | None => ""%string
  end.
Proof.
  unfold findExistingIcon, candidate_names.
  destruct (hasImageExtension iconName); simpl.
  - destruct (file_exists fs _); reflexivity.
  - repeat (destruct (file_exists fs _); [reflexivity|]). reflexivity.
Qed.

(** A non-empty answer of [findExistingIcon] is one of the candidate
    files of the directory, and that file exists. *)
Lemma findExistingIcon_found (dir : string) :
  findExistingIcon fs dir iconName <> ""%string ->
  file_exists fs (findExistingIcon fs dir iconName) = true
  /\ exists c, In c (candidate_names iconName)
               /\ findExistingIcon fs dir iconName = g_build_filename [dir; c].
Proof.
  rewrite findExistingIcon_first_existing.
  destruct (List.find _ _) as [fullpath|] eqn:E; [|congruence].
  intros _. apply List.find_some in E as [Hin Hex]. split; [exact Hex|].
  apply List.in_map_iff in Hin as (c & <- & Hc). now exists c.
Qed.

Lemma candidate_names_nonempty (c : string) :
  In c (candidate_names iconName) -> c <> ""%string.
Proof.
  unfold candidate_names.
  destruct iconName as [|a s] eqn:E.
  - simpl. intros [<-|[<-|[<-|[]]]]; discriminate.
  - destruct (hasImageExtension (String a s)).
    + intros [<-|[]]. discriminate.
    + intros H. apply List.in_map_iff in H as (extension & <- & _). discriminate.
Qed.

(** [findExistingIcon] answers with a path exactly when the directory
    holds a match. *)
Lemma findExistingIcon_holds_match (dir : string) :
  findExistingIcon fs dir iconName <> ""%string <-> holds_match fs dir iconName.
Proof.
  unfold holds_match. split.
  - intros H. destruct (findExistingIcon_found dir H) as (Hex & c & Hc & E).
    exists c. split; [exact Hc | now rewrite <- E].
  - intros (c & Hc & Hex). rewrite findExistingIcon_first_existing.
    destruct (List.find _ _) as [fullpath|] eqn:E.
    + apply List.find_some in E as [Hin _].
      apply List.in_map_iff in Hin as (c' & <- & Hc').
      apply g_build_filename_nonempty. now apply candidate_names_nonempty.
    + exfalso.
      assert (Hin : In (g_build_filename [dir; c])
                      (List.map (fun c => g_build_filename [dir; c])
                         (candidate_names iconName))).
      { apply List.in_map_iff. now exists c. }
      pose proof (List.find_none _ _ E _ Hin) as Hnone. congruence.
Qed.

Lemma search_step_cases (st : search_state) (p : ThemeSubdirectory) :
  (best_size st < size p /\ found p <> ""%string
   /\ search_step fs iconName st p
      = {| best_size := size p; iconPath := found p; probed := probed st ++ [p] |})
  \/ (best_size st < size p /\ found p = ""%string
      /\ search_step fs iconName st p
         = {| best_size := best_size st; iconPath := iconPath st;
              probed := probed st ++ [p] |})
  \/ (size p <= best_size st /\ search_step fs iconName st p = st).
Proof.
  unfold search_step.
  destruct (Z.gtb_spec (size p) (best_size st)) as [Hgt|Hle].
  - destruct (StdString.empty (found p)) eqn:E; simpl.
    + apply empty_true_iff in E. right; left. auto.
    + apply empty_false_iff in E. left. auto.
  - right; right. auto.
Qed.

Lemma search_from_snoc (st : search_state) (l : list ThemeSubdirectory)
    (x : ThemeSubdirectory) :
  search_from fs st (l ++ [x]) iconName
  = search_step fs iconName (search_from fs st l iconName) x.
Proof. unfold search_from. now rewrite List.fold_left_app. Qed.

Lemma search_from_app (st : search_state) (l1 l2 : list ThemeSubdirectory) :
  search_from fs st (l1 ++ l2) iconName
  = search_from fs (search_from fs st l1 iconName) l2 iconName.
Proof. unfold search_from. now rewrite List.fold_left_app. Qed.

(** What the loop has established when it ends: the best size never
    goes down; no directory with a match is larger than the final best
    size; and either nothing was recorded, or the recorded path is the
    match of a directory [p] of the final best size, ahead of which no
    directory of that size or larger has a match. *)
Lemma search_from_invariant (l : list ThemeSubdirectory) (st : search_state) :
  let st' := search_from fs st l iconName in
  best_size st <= best_size st'
  /\ (forall q, In q l -> found q <> ""%string ->
                size q <= best_size st')
  /\ ((best_size st' = best_size st /\ iconPath st' = iconPath st)
      \/ exists l1 p l2,
           l = l1 ++ p :: l2
           /\ found p <> ""%string
           /\ size p = best_size st'
           /\ best_size st < size p
           /\ iconPath st' = found p
           /\ forall q, In q l1 -> found q <> ""%string ->
                        size q < size p).
Proof.
  induction l as [|x l IH] using List.rev_ind; simpl.
  - split; [lia|]. split; [intros q []|]. left. auto.
  - rewrite search_from_snoc.
    destruct IH as (Hmono & Hmax & Hwin).
    set (mid := search_from fs st l iconName) in *.
    destruct (search_step_cases mid x) as
      [(Hgt & Hf & ->)|[(Hgt & Hf & ->)|(Hle & ->)]]; simpl.
    + (* a match is recorded at [x] *)
      split; [lia|]. split.
      * intros q Hq Hfq. apply List.in_app_iff in Hq as [Hq|[<-|[]]]; [|lia].
        specialize (Hmax q Hq Hfq). lia.
      * right. exists l, x, []. repeat split; auto; try lia.
        intros q Hq Hfq. specialize (Hmax q Hq Hfq). lia.
    + (* [x] is probed and has no match *)
      split; [lia|]. split.
      * intros q Hq Hfq. apply List.in_app_iff in Hq as [Hq|[<-|[]]];
          [now apply Hmax | contradiction].
      * destruct Hwin as [Hsame|(l1 & p & l2 & -> & Hp)]; [now left|right].
        exists l1, p, (l2 ++ [x]). rewrite <- List.app_assoc. simpl.
        split; [reflexivity | exact Hp].
    + (* [x] is not larger than the best so far *)
      split; [lia|]. split.
      * intros q Hq Hfq. apply List.in_app_iff in Hq as [Hq|[<-|[]]];
          [now apply Hmax | lia].
      * destruct Hwin as [Hsame|(l1 & p & l2 & -> & Hp)]; [now left|right].
        exists l1, p, (l2 ++ [x]). rewrite <- List.app_assoc. simpl.
        split; [reflexivity | exact Hp].
Qed.

(** The directories probed by a run of the loop are all strictly larger
    than the best size the run started from. *)
Lemma search_from_probed (l : list ThemeSubdirectory) :
  forall st,
    exists later,
      probed (search_from fs st l iconName) = probed st ++ later
      /\ Forall (fun q => best_size st < size q /\ In q l) later.
Proof.
  induction l as [|x l IH]; intros st.
  - exists []. simpl. now rewrite List.app_nil_r.
  - change (search_from fs st (x :: l) iconName)
      with (search_from fs (search_step fs iconName st x) l iconName).
    destruct (IH (search_step fs iconName st x)) as (later & Hp & Hl).
    destruct (search_step_cases st x) as
      [(Hgt & Hf & E)|[(Hgt & Hf & E)|(Hle & E)]];
      rewrite E in Hp, Hl |- *; simpl in Hp, Hl.
    + exists (x :: later). rewrite Hp, <- List.app_assoc. split; [reflexivity|].
      constructor; [split; [lia | now left]|].
      eapply List.Forall_impl; [|exact Hl]. simpl. intros q [? ?]. split; [lia|now right].
    + exists (x :: later). rewrite Hp, <- List.app_assoc. split; [reflexivity|].
      constructor; [split; [lia | now left]|].
      eapply List.Forall_impl; [|exact Hl]. simpl. intros q [? ?]. split; [lia|now right].
    + exists later. split; [exact Hp|].
      eapply List.Forall_impl; [|exact Hl]. simpl. intros q [? ?]. split; [lia|now right].
Qed.

End IconSearch.

Section IconFinderClaims.
Import StdString GLib IconFinder.

Local Open Scope Z_scope.

(** A file system given by the files and the directories it holds and
    by the listing of each directory; it has no key file. *)
Definition fs_of (files dirs : list string)
    (listing : string -> option (list string)) : FileSystem :=
  {| file_exists := fun p => existsb (String.eqb p) (files ++ dirs);
     is_dir := fun p => existsb (String.eqb p) dirs;
     read_dir := listing;
     load_key_file := fun _ => None;
     time_created := fun _ => 0;
     mkdir_succeeds := fun _ => true |}.

Lemma find_relative_name (fs : FileSystem) (fuel : nat) (self : IconFinder)
    (iconName : string) :
  front iconName <> "/"%char ->
  find fs fuel self iconName
  = Some (iconPath (search fs (_searchPaths self) iconName)).
Proof.
  intros H. unfold find.
  destruct (Ascii.eqb_spec (front iconName) "/"%char); [contradiction | reflexivity].
Qed.

(** [find] reaches the size-ranked search when the name is not taken
    for an explicit path, and when [tryFindExplicitFile] comes back
    empty-handed. *)
Lemma find_reaches_search (fs : FileSystem) (fuel : nat) (self : IconFinder)
    (iconName : string) :
  front iconName <> "/"%char
  \/ tryFindExplicitFile fs fuel (_basePath self) iconName = Some ""%string ->
  find fs fuel self iconName
  = Some (iconPath (search fs (_searchPaths self) iconName)).
Proof.
  intros [H|H]; [now apply find_relative_name|].
  unfold find. rewrite H. simpl. now destruct (Ascii.eqb _ _).
Qed.

(** C4, as the code has it.  For an icon name that does not begin with
    [/], or for which [tryFindExplicitFile] comes back empty-handed,
    [find] returns; what it returns is empty or an existing file; it is
    empty when no listed directory of positive size holds a match; and
    when some listed directory of positive size holds one, it is the
    file [findExistingIcon] picks in a listed directory that holds a
    match and is at least as large as every listed directory holding
    one: a candidate name (the name itself if it ends in .png, .svg or
    .xpm, else the name with each of these appended in turn) joined to
    that directory. *)
Theorem find_returns_largest_match :
  forall (fs : FileSystem) (fuel : nat) (self : IconFinder) (iconName : string),
    front iconName <> "/"%char
    \/ tryFindExplicitFile fs fuel (_basePath self) iconName = Some ""%string ->
    exists result : string,
      find fs fuel self iconName = Some result
      /\ (result <> ""%string -> file_exists fs result = true)
      /\ ((forall p, In p (_searchPaths self) -> 0 < size p ->
                     ~ holds_match fs (path p) iconName) ->
          result = ""%string)
      /\ ((exists p0, In p0 (_searchPaths self) /\ 0 < size p0
                      /\ holds_match fs (path p0) iconName) ->
          exists p,
            In p (_searchPaths self)
            /\ holds_match fs (path p) iconName
            /\ result = findExistingIcon fs (path p) iconName
            /\ result <> ""%string
            /\ (exists c, In c (candidate_names iconName)
                          /\ result = g_build_filename [path p; c])
            /\ forall q, In q (_searchPaths self) ->
                         holds_match fs (path q) iconName ->
                         size q <= size p).
Proof.
  intros fs fuel self iconName Hrel.
  exists (iconPath (search fs (_searchPaths self) iconName)).
  split; [now apply find_reaches_search|].
  destruct (search_from_invariant fs iconName (_searchPaths self) search_start)
    as (_ & Hmax & Hwin).
  fold (search fs (_searchPaths self) iconName) in Hmax, Hwin.
  simpl in Hwin.
  destruct Hwin as [[Hb Hp]|(l1 & p & l2 & Hl & Hf & Hsz & Hpos & Hp & _)].
  - (* nothing was recorded *)
    rewrite Hp. split; [congruence|]. split; [reflexivity|].
    intros (p0 & Hin & Hpos & Hf).
    apply findExistingIcon_holds_match in Hf.
    specialize (Hmax p0 Hin Hf). lia.
  - rewrite Hp. split.
    + intros _. now apply findExistingIcon_found.
    + assert (Hin : In p (_searchPaths self)).
      { rewrite Hl. apply List.in_app_iff. right. now left. }
      split.
      * intros Hnone. exfalso. apply (Hnone p Hin Hpos).
        now apply findExistingIcon_holds_match.
      * intros _. exists p. repeat split; auto.
        -- now apply findExistingIcon_holds_match.
        -- now apply findExistingIcon_found.
        -- intros q Hq Hfq. rewrite Hsz. apply Hmax; [exact Hq|].
           now apply findExistingIcon_holds_match.
Qed.

(** One theme directory with sub-directories of sizes 16, 32, 48 and
    128, each holding foo.png. *)
Definition four_sizes : FileSystem :=
  fs_of ["/t/16/foo.png"; "/t/32/foo.png"; "/t/48/foo.png"; "/t/128/foo.png"]%string
        ["/t/16"; "/t/32"; "/t/48"; "/t/128"]%string (fun _ => None).

Definition four_sizes_finder : IconFinder :=
  {| _searchPaths :=
       [ {| path := "/t/128"; size := 128 |}; {| path := "/t/48"; size := 48 |};
         {| path := "/t/32"; size := 32 |}; {| path := "/t/16"; size := 16 |} ];
     _basePath := "/t" |}.

Lemma find_returns_largest_match_witness :
  exists result : string,
    find four_sizes 0 four_sizes_finder "foo" = Some result
    /\ result = "/t/128/foo.png"%string.
Proof.
  destruct (find_returns_largest_match four_sizes 0 four_sizes_finder "foo")
    as (result & Hfind & _); [left; discriminate|].
  exists result. split; [exact Hfind|].
  vm_compute in Hfind. congruence.
Defined.

(** The same four sizes found by scanning a hicolor theme that has
    no index file: the finder is built by [getSearchPaths], and the
    128 directory wins. *)
Definition scanned_theme : FileSystem :=
  fs_of (List.map (fun d => "/app/icons/hicolor/" +:+ d +:+ "/apps/foo.png")
           ["16x16"; "32x32"; "48x48"; "128x128"]%string)
        ("/app/icons/hicolor"%string
           :: List.map (fun d => "/app/icons/hicolor/" +:+ d +:+ "/apps")
                ["16x16"; "32x32"; "48x48"; "128x128"]%string)
        (fun d => if String.eqb d "/app/icons/hicolor"
                  then Some ["16x16"; "32x32"; "48x48"; "128x128"]%string
                  else None).

Example find_in_scanned_theme :
  List.map size (getSearchPaths scanned_theme "/app") = [128; 48; 32; 16; 1]
  /\ find scanned_theme 0 (new_IconFinder scanned_theme "/app") "foo"
     = Some "/app/icons/hicolor/128x128/apps/foo.png"%string.
Proof. split; reflexivity. Qed.

(** An installation whose hicolor theme has a directory named 0x0, and
    a finder built for it: the 0x0 directory enters the search paths
    with size 0. *)
Definition zero_size_install : FileSystem :=
  fs_of ["/opt/app/icons/hicolor/0x0/apps/foo.png"]%string
        ["/opt/app"; "/opt/app/icons"; "/opt/app/icons/hicolor";
         "/opt/app/icons/hicolor/0x0"; "/opt/app/icons/hicolor/0x0/apps"]%string
        (fun d => if String.eqb d "/opt/app/icons/hicolor"
                  then Some ["0x0"%string] else None).

(** An absolute icon name that exists, and a search directory that
    holds a match for it as well. *)
Definition absolute_icon : FileSystem :=
  fs_of ["/abs/foo.png"; "/icons/abs/foo.png"]%string ["/icons"]%string
        (fun _ => None).

(** The wording of C4 in the specification fails in two ways.  The
    finder built for the first installation lists the 0x0 directory with
    size 0; that directory holds a match for foo, and [find] returns the
    empty path.  In the second, the icon name is an absolute path that exists:
    [find] returns it as it is, although the one search directory holds
    a match, which is another file, and also when no directory is
    listed at all. *)
Lemma find_misses_zero_size_and_absolute :
  (_searchPaths (new_IconFinder zero_size_install "/opt/app")
   = [ {| path := "/opt/app/icons/hicolor"; size := 1 |};
       {| path := "/opt/app/icons"; size := 1 |};
       {| path := "/opt/app/icons/hicolor/0x0/apps"; size := 0 |} ]
   /\ holds_match zero_size_install "/opt/app/icons/hicolor/0x0/apps" "foo"
   /\ findExistingIcon zero_size_install "/opt/app/icons/hicolor/0x0/apps" "foo"
      = "/opt/app/icons/hicolor/0x0/apps/foo.png"%string
   /\ find zero_size_install 0 (new_IconFinder zero_size_install "/opt/app") "foo"
      = Some ""%string)
  /\ (holds_match absolute_icon "/icons" "/abs/foo.png"
      /\ findExistingIcon absolute_icon "/icons" "/abs/foo.png"
         = "/icons/abs/foo.png"%string
      /\ find absolute_icon 0
           {| _searchPaths := [ {| path := "/icons"; size := 48 |} ];
              _basePath := "/opt/app" |} "/abs/foo.png"
         = Some "/abs/foo.png"%string
      /\ find absolute_icon 0
           {| _searchPaths := []; _basePath := "/opt/app" |} "/abs/foo.png"
         = Some "/abs/foo.png"%string).
Proof.
  split; [split; [reflexivity | split; [|split; reflexivity]]
         | split; [|repeat split; reflexivity]].
  - exists "foo.png"%string. split; [now left | reflexivity].
  - exists "/abs/foo.png"%string. split; [now left | reflexivity].
Qed.

(** C10.  The loop of [find] is [search], whose result [find] returns
    for a name that does not begin with [/] (last part).  Whenever the
    loop ends with a recorded path, that path
    is the match of the earliest listed directory, among those of its
    size, that holds a match; and once the loop has recorded the match
    of a directory [p] (reached with a best size below that of [p]),
    every directory it goes on to probe is strictly larger than [p] and
    comes later in the list, so none of the size of [p] is probed, and
    the final path is the one recorded at [p] unless a strictly larger
    directory took its place. *)
Theorem find_earliest_of_equal_size_wins :
  forall (fs : FileSystem) (iconName : string),
    (forall searchPaths : list ThemeSubdirectory,
        iconPath (search fs searchPaths iconName) <> ""%string ->
        exists l1 p l2,
          searchPaths = l1 ++ p :: l2
          /\ holds_match fs (path p) iconName
          /\ iconPath (search fs searchPaths iconName)
             = findExistingIcon fs (path p) iconName
          /\ best_size (search fs searchPaths iconName) = size p
          /\ forall q, In q l1 -> size q = size p ->
                       ~ holds_match fs (path q) iconName)
    /\ (forall (l1 l2 : list ThemeSubdirectory) (p : ThemeSubdirectory),
          best_size (search fs l1 iconName) < size p ->
          holds_match fs (path p) iconName ->
          let recorded := search fs (l1 ++ [p]) iconName in
          let final := search fs (l1 ++ p :: l2) iconName in
          best_size recorded = size p
          /\ iconPath recorded = findExistingIcon fs (path p) iconName
          /\ probed recorded = probed (search fs l1 iconName) ++ [p]
          /\ (exists later,
                 probed final = probed recorded ++ later
                 /\ Forall (fun q => size p < size q /\ In q l2) later)
          /\ (iconPath final = iconPath recorded \/ size p < best_size final))
    /\ (forall (fuel : nat) (self : IconFinder),
          front iconName <> "/"%char ->
          find fs fuel self iconName
          = Some (iconPath (search fs (_searchPaths self) iconName))).
Proof.
  intros fs iconName. split; [|split; [|intros; now apply find_relative_name]].
  - intros searchPaths Hne.
    destruct (search_from_invariant fs iconName searchPaths search_start)
      as (_ & _ & Hwin).
    fold (search fs searchPaths iconName) in Hwin. simpl in Hwin.
    destruct Hwin as [[_ Hp]|(l1 & p & l2 & Hl & Hf & Hsz & Hpos & Hp & Hbefore)];
      [contradiction|].
    exists l1, p, l2. repeat split; auto.
    + now apply findExistingIcon_holds_match.
    + intros q Hq Hsame Hm. apply findExistingIcon_holds_match in Hm.
      specialize (Hbefore q Hq Hm). lia.
  - intros l1 l2 p Hlt Hf recorded final.
    apply findExistingIcon_holds_match in Hf.
    assert (Hrec : recorded
                   = {| best_size := size p;
                        iconPath := findExistingIcon fs (path p) iconName;
                        probed := probed (search fs l1 iconName) ++ [p] |}).
    { unfold recorded, search. rewrite search_from_snoc.
      destruct (search_step_cases fs iconName (search_from fs search_start l1 iconName) p)
        as [(_ & _ & E)|[(_ & Hno & _)|(Hle & _)]];
        [exact E | contradiction | unfold search in Hlt; lia]. }
    assert (Hfinal : final = search_from fs recorded l2 iconName).
    { unfold final, recorded, search.
      change (l1 ++ p :: l2) with (l1 ++ [p] ++ l2).
      now rewrite List.app_assoc, search_from_app. }
    split; [now rewrite Hrec|]. split; [now rewrite Hrec|].
    split; [now rewrite Hrec|].
    destruct (search_from_probed fs iconName l2 recorded) as (later & Hprobed & Hlater).
    destruct (search_from_invariant fs iconName l2 recorded) as (Hmono & _ & Hwin).
    rewrite <- Hfinal in Hprobed, Hmono, Hwin.
    split.
    + exists later. split; [exact Hprobed|].
      eapply List.Forall_impl; [|exact Hlater]. simpl.
      rewrite Hrec. simpl. auto.
    + destruct Hwin as [[_ Hsame]|(l1' & p' & l2' & _ & _ & Hsz & Hgt & _)].
      * now left.
      * right. rewrite Hrec in Hgt. simpl in Hgt. lia.
Qed.

(** Two directories of size 48 holding foo.png, then one of size 32. *)
Definition equal_sizes : FileSystem :=
  fs_of ["/t/a/foo.png"; "/t/b/foo.png"; "/t/c/foo.png"]%string
        ["/t/a"; "/t/b"; "/t/c"]%string (fun _ => None).

Definition dir_a : ThemeSubdirectory := {| path := "/t/a"; size := 48 |}.
Definition dir_b : ThemeSubdirectory := {| path := "/t/b"; size := 48 |}.
Definition dir_c : ThemeSubdirectory := {| path := "/t/c"; size := 32 |}.

Lemma find_earliest_of_equal_size_wins_witness :
  iconPath (search equal_sizes [dir_a; dir_b; dir_c] "foo") = "/t/a/foo.png"%string
  /\ exists later,
       probed (search equal_sizes [dir_a; dir_b; dir_c] "foo")
       = probed (search equal_sizes [dir_a] "foo") ++ later
       /\ Forall (fun q => 48 < size q /\ In q [dir_b; dir_c]) later.
Proof.
  destruct (find_earliest_of_equal_size_wins equal_sizes "foo") as (_ & H & _).
  destruct (H [] [dir_b; dir_c] dir_a) as (_ & _ & _ & Hlater & Hfinal).
  - reflexivity.
  - exists "foo.png"%string. split; [now left | reflexivity].
  - split; [reflexivity | exact Hlater].
Defined.

(** ** The merge heuristic *)

Lemma tryMergeFilePaths_loop_step (fs : FileSystem) (fuel : nat)
    (parent child : string) (slashPos prevSlashPos : Z) :
  tryMergeFilePaths_loop fs (S fuel) parent child slashPos prevSlashPos =
  if slashPos =? npos then Some child
  else if (StdString.find child (substr parent slashPos npos) =? npos)
          && negb (prevSlashPos =? npos)
  then
    if file_exists fs (g_build_filename [substr parent 0 prevSlashPos; child])
    then Some (g_build_filename [substr parent 0 prevSlashPos; child])
    else Some child
  else
    tryMergeFilePaths_loop fs fuel parent child
      (find_last_of parent "/"%char (size_t_sub slashPos 1)) slashPos.
Proof. reflexivity. Qed.

(** Fuel only decides whether the loop is seen to end, never what it
    returns. *)
Lemma tryMergeFilePaths_loop_more_fuel (fs : FileSystem) (parent child : string)
    (fuel : nat) :
  forall slashPos prevSlashPos result (extra : nat),
    tryMergeFilePaths_loop fs fuel parent child slashPos prevSlashPos = Some result ->
    tryMergeFilePaths_loop fs (fuel + extra) parent child slashPos prevSlashPos
    = Some result.
Proof.
  induction fuel as [|fuel IH]; intros slashPos prevSlashPos result extra H;
    [discriminate|].
  change (S fuel + extra)%nat with (S (fuel + extra)).
  rewrite tryMergeFilePaths_loop_step in *.
  destruct (slashPos =? npos); [exact H|].
  destruct (_ && _); [exact H|]. now apply IH.
Qed.

(** For the base path /opt/app and a name that lies under it, the loop
    alternates between the two separators of the base path: at each of
    them the rest of the base path occurs in the name, so the test that
    would leave the loop fails, and at the leading separator
    [slashPos - 1] wraps around, which sends [find_last_of] back to the
    last one. *)
Lemma tryMergeFilePaths_loop_cycles (fs : FileSystem) (fuel : nat) :
  forall prevSlashPos,
    tryMergeFilePaths_loop fs fuel "/opt/app" "/opt/app/icon.png" 4 prevSlashPos
    = None
    /\ tryMergeFilePaths_loop fs fuel "/opt/app" "/opt/app/icon.png" 0 prevSlashPos
       = None.
Proof.
  induction fuel as [|fuel IH]; intros prev; [split; reflexivity|].
  rewrite !tryMergeFilePaths_loop_step.
  change (4 =? npos) with false. change (0 =? npos) with false.
  change (StdString.find "/opt/app/icon.png" (substr "/opt/app" 4 npos) =? npos)
    with false.
  change (StdString.find "/opt/app/icon.png" (substr "/opt/app" 0 npos) =? npos)
    with false.
  simpl andb. cbv iota.
  change (find_last_of "/opt/app" "/"%char (size_t_sub 4 1)) with 0.
  change (find_last_of "/opt/app" "/"%char (size_t_sub 0 1)) with 4.
  split; apply IH.
Qed.

(** X3.  [tryMergeFilePaths] does not return for the base path /opt/app
    and the name /opt/app/icon.png: no amount of fuel sees its loop
    end. *)
Theorem tryMergeFilePaths_diverges :
  forall (fs : FileSystem) (fuel : nat),
    tryMergeFilePaths fs fuel "/opt/app" "/opt/app/icon.png" = None.
Proof.
  intros fs fuel. unfold tryMergeFilePaths.
  change (find_last_of "/opt/app" "/"%char npos) with 4.
  apply tryMergeFilePaths_loop_cycles.
Qed.

(** Hence [find] does not return for such a name when neither the name
    nor its join under the base path exists. *)
Lemma find_does_not_return (fs : FileSystem) (fuel : nat)
    (searchPaths : list ThemeSubdirectory) :
  file_exists fs "/opt/app/icon.png" = false ->
  file_exists fs "/opt/app/opt/app/icon.png" = false ->
  find fs fuel {| _searchPaths := searchPaths; _basePath := "/opt/app" |}
    "/opt/app/icon.png" = None.
Proof.
  intros H1 H2. unfold find, tryFindExplicitFile. simpl front.
  change (Ascii.eqb "/"%char "/"%char) with true. cbv iota.
  simpl _basePath. rewrite H1.
  change (g_build_filename ["/opt/app"; "/opt/app/icon.png"]%string)
    with "/opt/app/opt/app/icon.png"%string.
  rewrite H2. unfold tryMergeFilePaths.
  change (find_last_of "/opt/app" "/"%char npos) with 4.
  now rewrite (proj1 (tryMergeFilePaths_loop_cycles fs fuel npos)).
Qed.

(** The bare filename the specification speaks of: what follows the
    last separator of the icon name. *)
Definition bare_filename (iconName : string) : string :=
  let slash := find_last_of iconName "/"%char npos in
  if slash =? npos then iconName else substr iconName (slash + 1) npos.

(** C6, as the code has it.  For an icon name that begins with [/]:
    when the name does not exist, the name joined to the base path does
    not exist, and the merge heuristic comes back with the name
    unchanged, [find] returns the result of the size-ranked search for
    the icon name as it was given, separators included. *)
Theorem find_falls_through_with_given_name :
  forall (fs : FileSystem) (fuel : nat) (self : IconFinder) (iconName : string),
    front iconName = "/"%char ->
    file_exists fs iconName = false ->
    file_exists fs (g_build_filename [_basePath self; iconName]) = false ->
    tryMergeFilePaths fs fuel (_basePath self) iconName = Some iconName ->
    find fs fuel self iconName
    = Some (iconPath (search fs (_searchPaths self) iconName)).
Proof.
  intros fs fuel self iconName Hfront Hdirect Hjoined Hmerge.
  unfold find, tryFindExplicitFile.
  rewrite Hfront, Hdirect, Hjoined, Hmerge, String.eqb_refl. reflexivity.
Qed.

(** A size-48 directory that holds abs/icon.png, and one that holds
    icon.png. *)
Definition nested_icon : FileSystem :=
  fs_of ["/themes/48/abs/icon.png"]%string ["/themes/48"]%string (fun _ => None).
Definition flat_icon : FileSystem :=
  fs_of ["/themes/48/icon.png"]%string ["/themes/48"]%string (fun _ => None).

Definition themes48_finder : IconFinder :=
  {| _searchPaths := [ {| path := "/themes/48"; size := 48 |} ];
     _basePath := "/opt/app" |}.

Lemma find_falls_through_with_given_name_witness :
  find nested_icon 2 themes48_finder "/abs/icon.png"
  = Some "/themes/48/abs/icon.png"%string.
Proof.
  apply (find_falls_through_with_given_name nested_icon 2 themes48_finder
           "/abs/icon.png"); reflexivity.
Defined.

(** The wording of C6 in the specification fails: all three explicit
    resolutions fail, the search
    for the bare filename icon.png would find /themes/48/icon.png, and
    [find] returns the empty path, having looked for
    /themes/48/abs/icon.png. *)
Lemma find_searches_full_name_not_bare_filename :
  front "/abs/icon.png" = "/"%char
  /\ file_exists flat_icon "/abs/icon.png" = false
  /\ file_exists flat_icon (g_build_filename ["/opt/app"; "/abs/icon.png"]%string) = false
  /\ tryMergeFilePaths flat_icon 2 "/opt/app" "/abs/icon.png"
     = Some "/abs/icon.png"%string
  /\ bare_filename "/abs/icon.png" = "icon.png"%string
  /\ iconPath (search flat_icon (_searchPaths themes48_finder)
                 (bare_filename "/abs/icon.png"))
     = "/themes/48/icon.png"%string
  /\ find flat_icon 2 themes48_finder "/abs/icon.png" = Some ""%string.
Proof. repeat split. Qed.

(** C5.  The list [getSearchPaths] returns is in non-increasing order
    of size (no entry is followed, anywhere later, by a larger one), it
    holds exactly the entries collected, and the entries of each size
    stand in the order in which they were collected. *)
Theorem getSearchPaths_sorted_stable :
  forall (fs : FileSystem) (basePath : string),
    StronglySorted (fun a b => size b <= size a) (getSearchPaths fs basePath)
    /\ Permutation (getSearchPaths fs basePath) (collectSearchPaths fs basePath)
    /\ forall k : Z,
         List.filter (fun p => size p =? k) (getSearchPaths fs basePath)
         = List.filter (fun p => size p =? k) (collectSearchPaths fs basePath).
Proof.
  intros fs basePath.
  destruct (sort_by_key_descending size (collectSearchPaths fs basePath))
    as (Hsorted & Hkeys & Hperm).
  split; [exact Hsorted|]. split; [exact Hperm | exact Hkeys].
Qed.

End IconFinderClaims.

(* ===================================================================== *)
(** * Properties of the desktop hook *)
(* ===================================================================== *)

Section DesktopHookClaims.
Import GLib DesktopHook.

Local Open Scope Z_scope.

Section Environment.

Variable fs : FileSystem.
Variables user_cache_dir user_data_dir : string.
Variable app_id_to_triplet : string -> bool.
Variable manifest_to_desktop : string -> string -> option string.
Variable desktop_to_exec : GKeyFile -> string -> option string.

Local Abbreviation build_desktop_file :=
  (build_desktop_file fs app_id_to_triplet manifest_to_desktop desktop_to_exec).
Local Abbreviation process_state :=
  (process_state fs app_id_to_triplet manifest_to_desktop desktop_to_exec).
Local Abbreviation process_all :=
  (process_all fs app_id_to_triplet manifest_to_desktop desktop_to_exec).
Local Abbreviation main :=
  (main fs user_cache_dir user_data_dir app_id_to_triplet manifest_to_desktop
     desktop_to_exec).

(** What a key file written by [build_desktop_file] for [app_id] holds:
    the source is the desktop file [manifest_to_desktop] names for that
    identity, and the launch command is the one [desktop_to_exec] gives
    for it. *)
Definition sandboxed_entry (appdir app_id : string) (written : GKeyFile) : Prop :=
  exists (from : string) (keyfile : GKeyFile) (oldexec : string),
    manifest_to_desktop appdir app_id = Some from
    /\ load_key_file fs from = Some keyfile
    /\ desktop_to_exec keyfile from = Some oldexec
    /\ written !! ("Desktop Entry", "Exec")%string
       = Some ("aa-exec -p " +:+ app_id +:+ " -- " +:+ oldexec)
    /\ written !! ("Desktop Entry", "Path")%string
       = Some (g_build_filename [appdir; app_id])
    /\ forall oldpath : string,
         keyfile !! ("Desktop Entry", "Path")%string = Some oldpath ->
         written !! ("Desktop Entry", "XCanonicalOldPath")%string = Some oldpath.

Lemma rewritten_key_file_entries keyfile oldexec appdir app_id :
  let written := rewritten_key_file keyfile oldexec appdir app_id in
  written !! ("Desktop Entry", "Exec")%string
  = Some ("aa-exec -p " +:+ app_id +:+ " -- " +:+ oldexec)
  /\ written !! ("Desktop Entry", "Path")%string
     = Some (g_build_filename [appdir; app_id])
  /\ forall oldpath : string,
       keyfile !! ("Desktop Entry", "Path")%string = Some oldpath ->
       written !! ("Desktop Entry", "XCanonicalOldPath")%string = Some oldpath.
Proof.
  unfold rewritten_key_file, g_key_file_set_string, g_key_file_get_string,
    g_key_file_has_key.
  simpl. split; [|split].
  - apply lookup_insert_eq.
  - rewrite lookup_insert_ne by congruence. apply lookup_insert_eq.
  - intros oldpath Hold.
    rewrite !lookup_insert_ne by congruence.
    rewrite Hold. rewrite bool_decide_eq_true_2 by eauto.
    apply lookup_insert_eq.
Qed.

Lemma copy_desktop_file_writes from to appdir app_id action :
  In action (copy_desktop_file fs desktop_to_exec from to appdir app_id) ->
  exists (keyfile : GKeyFile) (oldexec : string),
    load_key_file fs from = Some keyfile
    /\ desktop_to_exec keyfile from = Some oldexec
    /\ action = g_file_set_contents to
                  (rewritten_key_file keyfile oldexec appdir app_id).
Proof.
  unfold copy_desktop_file.
  destruct (load_key_file fs from) as [keyfile|] eqn:Hload; [|intros []].
  destruct (desktop_to_exec keyfile from) as [oldexec|] eqn:Hexec; [|intros []].
  intros [<-|[]]. exists keyfile, oldexec. auto.
Qed.

Lemma build_desktop_file_writes state symlinkdir desktopdir action :
  In action (build_desktop_file state symlinkdir desktopdir) ->
  exists written,
    action = g_file_set_contents (desktop_file_path state desktopdir) written
    /\ sandboxed_entry symlinkdir (app_id state) written.
Proof.
  unfold DesktopHook.build_desktop_file.
  destruct (app_id_to_triplet (app_id state)); simpl; [|intros []].
  destruct (manifest_to_desktop symlinkdir (app_id state)) as [from|] eqn:Hfrom;
    [|intros []].
  intros H.
  apply copy_desktop_file_writes in H as (keyfile & oldexec & Hload & Hexec & ->).
  eexists. split; [reflexivity|].
  exists from, keyfile, oldexec.
  split; [exact Hfrom|]. split; [exact Hload|]. split; [exact Hexec|].
  apply rewritten_key_file_entries.
Qed.

Lemma process_state_writes symlinkdir desktopdir exists_ state to written :
  In (g_file_set_contents to written)
     (snd (process_state symlinkdir desktopdir exists_ state)) ->
  to = desktop_file_path state desktopdir
  /\ sandboxed_entry symlinkdir (app_id state) written.
Proof.
  unfold DesktopHook.process_state, remove_desktop_file.
  intros H.
  assert (Hb : forall action,
             In action (build_desktop_file state symlinkdir desktopdir) ->
             action = g_file_set_contents to written ->
             to = desktop_file_path state desktopdir
             /\ sandboxed_entry symlinkdir (app_id state) written).
  { intros action Hin ->.
    apply build_desktop_file_writes in Hin as (w & E & Hw).
    inversion E; subst. auto. }
  destruct (has_click state && has_desktop state).
  - destruct (click_created state >? desktop_created state); simpl in H.
    + destruct H as [H|H]; [discriminate|]. eapply Hb; eauto.
    + destruct H.
  - destruct (has_click state).
    + destruct exists_; simpl in H.
      * eapply Hb; eauto.
      * destruct H as [H|H]; [discriminate|].
        destruct (mkdir_succeeds fs desktopdir); [eapply Hb; eauto | destruct H].
    + destruct (has_desktop state); simpl in H.
      * destruct H as [H|[]]. discriminate.
      * destruct H.
Qed.

Lemma process_all_actions symlinkdir desktopdir apparray :
  forall exists_ action,
    In action (process_all symlinkdir desktopdir exists_ apparray) ->
    exists state exists',
      In state apparray
      /\ In action (snd (process_state symlinkdir desktopdir exists' state)).
Proof.
  induction apparray as [|state rest IH]; intros exists_ action H; [destruct H|].
  simpl in H.
  destruct (process_state symlinkdir desktopdir exists_ state) as [e actions] eqn:E.
  apply List.in_app_iff in H as [H|H].
  - exists state, exists_. split; [now left|]. now rewrite E.
  - destruct (IH _ _ H) as (s & e' & Hs & Ha). exists s, e'. split; [now right|exact Ha].
Qed.

(** C8.  Every file [main] writes is the desktop file of an entry of
    its array.  Its source is the desktop file that
    [manifest_to_desktop] names for that identity in the click
    directory, loaded as a key file, and it holds: under [Exec], the
    text [aa-exec -p ], the identity, [ -- ] and the launch command
    [desktop_to_exec] gave for that source; under [Path], the identity
    joined to the click directory; and, when that source had a [Path],
    that value under [XCanonicalOldPath]. *)
Theorem generated_desktop_file_is_sandboxed :
  forall (argc : Z) (to : string) (written : GKeyFile),
    In (g_file_set_contents to written) (snd (main argc)) ->
    exists identity : string,
      to = g_build_filename
             [desktopdir user_data_dir; "click-" +:+ identity +:+ ".desktop"]
      /\ exists (from : string) (keyfile : GKeyFile) (oldexec : string),
           manifest_to_desktop (symlinkdir user_cache_dir) identity = Some from
           /\ load_key_file fs from = Some keyfile
           /\ desktop_to_exec keyfile from = Some oldexec
           /\ written !! ("Desktop Entry", "Exec")%string
              = Some ("aa-exec -p " +:+ identity +:+ " -- " +:+ oldexec)
           /\ written !! ("Desktop Entry", "Path")%string
              = Some (g_build_filename [symlinkdir user_cache_dir; identity])
           /\ forall oldpath : string,
                keyfile !! ("Desktop Entry", "Path")%string = Some oldpath ->
                written !! ("Desktop Entry", "XCanonicalOldPath")%string
                = Some oldpath.
Proof.
  intros argc to written H. unfold DesktopHook.main in H.
  destruct (negb (argc =? 1)); [destruct H|].
  destruct (scan_directories fs user_cache_dir user_data_dir) as [apparray e].
  simpl in H.
  apply process_all_actions in H as (state & e' & _ & H).
  apply process_state_writes in H as [-> Hw].
  exists (app_id state). split; [reflexivity | exact Hw].
Qed.

(** X2.  The rows of the state table as [process_state] carries them
    out, [desktopdirexists] being the value that variable holds when the
    entry is reached. *)
Theorem process_state_table (symlinkdir desktopdir : string)
    (desktopdirexists : bool) (state : app_state_t) :
  (has_click state = true -> has_desktop state = true ->
   desktop_created state < click_created state ->
   process_state symlinkdir desktopdir desktopdirexists state
   = (desktopdirexists,
      g_unlink (desktop_file_path state desktopdir)
        :: build_desktop_file state symlinkdir desktopdir))
  /\ (has_click state = true -> has_desktop state = true ->
      click_created state <= desktop_created state ->
      process_state symlinkdir desktopdir desktopdirexists state
      = (desktopdirexists, []))
  /\ (has_click state = true -> has_desktop state = false ->
      process_state symlinkdir desktopdir desktopdirexists state
      = if desktopdirexists
        then (true, build_desktop_file state symlinkdir desktopdir)
        else if mkdir_succeeds fs desktopdir
        then (true, g_mkdir_with_parents desktopdir
                      :: build_desktop_file state symlinkdir desktopdir)
        else (false, [g_mkdir_with_parents desktopdir]))
  /\ (has_click state = false -> has_desktop state = true ->
      process_state symlinkdir desktopdir desktopdirexists state
      = (desktopdirexists, [g_unlink (desktop_file_path state desktopdir)])).
Proof.
  unfold DesktopHook.process_state, remove_desktop_file.
  repeat split; intros Hc Hd; rewrite Hc, Hd; simpl.
  - intros Hlt. apply Z.gtb_lt in Hlt. now rewrite Hlt.
  - intros Hle.
    destruct (Z.gtb_spec (click_created state) (desktop_created state));
      [lia | reflexivity].
  - destruct desktopdirexists; simpl; [reflexivity|].
    destruct (mkdir_succeeds fs desktopdir); reflexivity.
  - reflexivity.
Qed.

Lemma build_desktop_file_no_mkdir state symlinkdir desktopdir path :
  ~ In (g_mkdir_with_parents path) (build_desktop_file state symlinkdir desktopdir).
Proof.
  intros H. apply build_desktop_file_writes in H as (w & E & _). discriminate.
Qed.

Lemma process_all_no_mkdir symlinkdir desktopdir apparray path :
  ~ In (g_mkdir_with_parents path) (process_all symlinkdir desktopdir true apparray).
Proof.
  induction apparray as [|state rest IH]; [intros []|].
  simpl. unfold DesktopHook.process_state, remove_desktop_file.
  pose proof (build_desktop_file_no_mkdir state symlinkdir desktopdir path) as Hb.
  destruct (has_click state && has_desktop state).
  - destruct (click_created state >? desktop_created state); simpl.
    + intros [H|H]; [discriminate|].
      apply List.in_app_iff in H as [H|H]; [now apply Hb | now apply IH].
    + exact IH.
  - destruct (has_click state); simpl.
    + intros H. apply List.in_app_iff in H as [H|H]; [now apply Hb | now apply IH].
    + destruct (has_desktop state); simpl.
      * intros [H|H]; [discriminate | now apply IH].
      * exact IH.
Qed.

(** X24.  [desktopdirexists] is set from a test of the click directory, so it
    is true whenever an entry reaches the merge loop: [main] never calls
    [g_mkdir_with_parents]. *)
Lemma main_never_makes_directory (argc : Z) (path : string) :
  ~ In (g_mkdir_with_parents path) (snd (main argc)).
Proof.
  unfold DesktopHook.main, scan_directories.
  destruct (negb (argc =? 1)); [intros []|].
  destruct (negb (exists_or_is_dir fs (symlinkdir user_cache_dir))); simpl.
  - intros [].
  - apply process_all_no_mkdir.
Qed.

End Environment.

(** A session with one click package installed and no applications
    directory yet. *)
Definition click_dir : string := "/home/u/.cache/upstart-app-launch/desktop".
Definition applications_dir : string := "/home/u/.local/share/applications".
Definition calculator_id : string := "com.example.calc_calc_1.0".

Definition source_entry : GKeyFile :=
  <[("Desktop Entry", "Path")%string := "/old"%string]>
    {[ ("Desktop Entry", "Exec")%string := "calc %u"%string ]}.

Definition fresh_install : FileSystem :=
  {| file_exists := fun p => String.eqb p click_dir;
     is_dir := fun p => String.eqb p click_dir;
     read_dir := fun p =>
       if String.eqb p click_dir then Some [calculator_id] else None;
     load_key_file := fun p =>
       if String.eqb p (click_dir +:+ "/com.example.calc_calc_1.0/calc.desktop")
       then Some source_entry else None;
     time_created := fun _ => 0;
     mkdir_succeeds := fun _ => true |}.

Definition sample_manifest_to_desktop (symlinkdir app_id : string) : option string :=
  Some (g_build_filename [symlinkdir; app_id; "calc.desktop"%string]).

Definition sample_desktop_to_exec (keyfile : GKeyFile) (from : string)
  : option string :=
  keyfile !! ("Desktop Entry", "Exec")%string.

Definition fresh_install_main : Z -> termination * list fs_action :=
  main fresh_install "/home/u/.cache" "/home/u/.local/share" (fun _ => true)
    sample_manifest_to_desktop sample_desktop_to_exec.

Lemma generated_desktop_file_is_sandboxed_witness :
  exists identity : string,
    (applications_dir +:+ "/click-com.example.calc_calc_1.0.desktop")%string
    = g_build_filename
        [desktopdir "/home/u/.local/share"; "click-" +:+ identity +:+ ".desktop"]
    /\ exists (from : string) (keyfile : GKeyFile) (oldexec : string),
         sample_manifest_to_desktop (symlinkdir "/home/u/.cache") identity
         = Some from
         /\ load_key_file fresh_install from = Some keyfile
         /\ sample_desktop_to_exec keyfile from = Some oldexec
         /\ rewritten_key_file source_entry "calc %u" click_dir calculator_id
              !! ("Desktop Entry", "Exec")%string
            = Some ("aa-exec -p " +:+ identity +:+ " -- " +:+ oldexec)
         /\ rewritten_key_file source_entry "calc %u" click_dir calculator_id
              !! ("Desktop Entry", "Path")%string
            = Some (g_build_filename [symlinkdir "/home/u/.cache"; identity])
         /\ forall oldpath : string,
              keyfile !! ("Desktop Entry", "Path")%string = Some oldpath ->
              rewritten_key_file source_entry "calc %u" click_dir calculator_id
                !! ("Desktop Entry", "XCanonicalOldPath")%string
              = Some oldpath.
Proof.
  apply (generated_desktop_file_is_sandboxed fresh_install
           "/home/u/.cache" "/home/u/.local/share" (fun _ => true)
           sample_manifest_to_desktop sample_desktop_to_exec 1).
  left. reflexivity.
Defined.

(** Two click packages with different launch commands: each desktop
    file wraps the command of its own package. *)
Definition two_packages : FileSystem :=
  {| file_exists := fun p => String.eqb p click_dir;
     is_dir := fun p => String.eqb p click_dir;
     read_dir := fun p =>
       if String.eqb p click_dir then Some ["a_a_1"%string; "b_b_1"%string]
       else None;
     load_key_file := fun p =>
       if String.eqb p (click_dir +:+ "/a_a_1/calc.desktop")
       then Some {[ ("Desktop Entry", "Exec")%string := "alpha --run"%string ]}
       else if String.eqb p (click_dir +:+ "/b_b_1/calc.desktop")
            then Some {[ ("Desktop Entry", "Exec")%string := "beta"%string ]}
            else None;
     time_created := fun _ => 0;
     mkdir_succeeds := fun _ => true |}.

Example two_packages_run :
  List.map
    (fun action =>
       match action with
       | g_file_set_contents to written =>
           (to, written !! ("Desktop Entry", "Exec")%string)
       | g_unlink path | g_mkdir_with_parents path => (path, None)
       end)
    (snd (main two_packages "/home/u/.cache" "/home/u/.local/share"
            (fun _ => true) sample_manifest_to_desktop sample_desktop_to_exec 1))
  = [ ((applications_dir +:+ "/click-a_a_1.desktop")%string,
       Some "aa-exec -p a_a_1 -- alpha --run"%string);
      ((applications_dir +:+ "/click-b_b_1.desktop")%string,
       Some "aa-exec -p b_b_1 -- beta"%string) ].
Proof. reflexivity. Qed.

(** An identity seen in both directories, the click entry the newer. *)
Definition updated_state : app_state_t :=
  {| app_id := calculator_id; has_click := true; has_desktop := true;
     click_created := 20; desktop_created := 10 |}.

Lemma process_state_table_witness :
  process_state fresh_install (fun _ => true) sample_manifest_to_desktop
    sample_desktop_to_exec click_dir applications_dir true updated_state
  = (true,
     [ g_unlink (applications_dir +:+ "/click-com.example.calc_calc_1.0.desktop");
       g_file_set_contents
         (applications_dir +:+ "/click-com.example.calc_calc_1.0.desktop")
         (rewritten_key_file source_entry "calc %u" click_dir calculator_id) ]).
Proof.
  apply (proj1 (process_state_table fresh_install (fun _ => true)
                  sample_manifest_to_desktop sample_desktop_to_exec
                  click_dir applications_dir true updated_state));
    [reflexivity | reflexivity | simpl; lia].
Defined.

(** C7, on the session above: the identity is present only as a click
    entry and the applications directory is absent, yet
    [desktopdirexists] is true after the scans, and [main] goes straight
    to writing the desktop file; no directory is made. *)
Theorem click_only_entry_without_applications_dir :
  exists_or_is_dir fresh_install (desktopdir "/home/u/.local/share") = false
  /\ scan_directories fresh_install "/home/u/.cache" "/home/u/.local/share"
     = ([ {| app_id := calculator_id; has_click := true; has_desktop := false;
             click_created := 0; desktop_created := 0 |} ], true)
  /\ fresh_install_main 1
     = (Exited 0, [ g_file_set_contents
               (applications_dir +:+ "/click-com.example.calc_calc_1.0.desktop")
               (rewritten_key_file source_entry "calc %u" click_dir calculator_id) ]).
Proof. repeat split. Qed.

End DesktopHookClaims.

(* ===================================================================== *)
(** * Further properties of the icon finder *)
(* ===================================================================== *)

Section IconFinderPaths.
Import StdString GLib IconFinder.

Local Open Scope Z_scope.

Variable fs : FileSystem.

(** ** Nothing that does not exist is returned *)

Lemma tryMergeFilePaths_loop_result (parent child : string) (fuel : nat) :
  forall slashPos prevSlashPos result,
    tryMergeFilePaths_loop fs fuel parent child slashPos prevSlashPos = Some result ->
    result = child \/ file_exists fs result = true.
Proof.
  induction fuel as [|fuel IH]; intros slashPos prevSlashPos result H;
    [discriminate|].
  rewrite tryMergeFilePaths_loop_step in H.
  destruct (slashPos =? npos); [left; congruence|].
  destruct (_ && _).
  - destruct (file_exists fs _) eqn:E; inversion H; subst; auto.
  - eapply IH; eassumption.
Qed.

Lemma tryFindExplicitFile_result (fuel : nat) (basePath iconName result : string) :
  tryFindExplicitFile fs fuel basePath iconName = Some result ->
  result = ""%string \/ file_exists fs result = true.
Proof.
  unfold tryFindExplicitFile.
  destruct (file_exists fs iconName) eqn:E1; [intros H; inversion H; subst; auto|].
  destruct (file_exists fs (g_build_filename [basePath; iconName])) eqn:E2;
    [intros H; inversion H; subst; auto|].
  destruct (tryMergeFilePaths fs fuel basePath iconName) as [merged|] eqn:E3;
    [|discriminate].
  destruct (String.eqb_spec merged iconName) as [->|Hne]; simpl;
    intros H; inversion H; subst; [now left|].
  apply tryMergeFilePaths_loop_result in E3 as [E3|E3]; [contradiction | now right].
Qed.

Lemma search_result_exists (searchPaths : list ThemeSubdirectory) (iconName : string) :
  iconPath (search fs searchPaths iconName) <> ""%string ->
  file_exists fs (iconPath (search fs searchPaths iconName)) = true.
Proof.
  intros Hne.
  destruct (search_from_invariant fs iconName searchPaths search_start)
    as (_ & _ & Hwin).
  fold (search fs searchPaths iconName) in Hwin. simpl in Hwin.
  destruct Hwin as [[_ Hp]|(l1 & p & l2 & _ & Hf & _ & _ & Hp & _)];
    [contradiction|].
  rewrite Hp. now apply findExistingIcon_found.
Qed.

(** X4.  Whatever the icon name, absolute or not, a path that [find] returns
    is empty or names a file that exists: a missing explicit path is
    never echoed back, and the merge heuristic only answers with a path
    it has tested. *)
Theorem find_result_exists :
  forall (fuel : nat) (self : IconFinder) (iconName result : string),
    find fs fuel self iconName = Some result ->
    result <> ""%string ->
    file_exists fs result = true.
Proof.
  intros fuel self iconName result H Hne. unfold find in H.
  assert (Hsearch : Some (iconPath (search fs (_searchPaths self) iconName))
                    = Some result -> file_exists fs result = true).
  { intros E. inversion E; subst. now apply search_result_exists. }
  destruct (Ascii.eqb (front iconName) "/"%char); [|now apply Hsearch].
  destruct (tryFindExplicitFile fs fuel (_basePath self) iconName)
    as [explicit|] eqn:E; [|discriminate].
  destruct (StdString.empty explicit) eqn:Hempty; simpl in H;
    [now apply Hsearch|].
  inversion H; subst.
  apply tryFindExplicitFile_result in E as [E|E]; [contradiction | exact E].
Qed.

(** An icon stored under a path relative to another install root: the
    merge heuristic finds it one level up from the base path. *)
Definition relocated_icon : FileSystem :=
  fs_of ["/click/app/usr/share/icons/app.png"]%string [] (fun _ => None).

(** ** The merge heuristic under a relative base path *)

Lemma rindex_below_spec (c : ascii) (s : string) (bound : nat) :
  match rindex_below c s bound with
  | Some i => (i < bound)%nat /\ String.get i s = Some c
  | None => True
  end.
Proof.
  induction bound as [|i IH]; simpl; [exact I|].
  destruct (String.get i s) as [c'|] eqn:E.
  - destruct (Ascii.eqb_spec c' c) as [->|_]; [split; [lia | exact E]|].
    destruct (rindex_below c s i); [|exact I].
    destruct IH; split; [lia | assumption].
  - destruct (rindex_below c s i); [|exact I].
    destruct IH; split; [lia | assumption].
Qed.

(** [find_last_of] answers [npos] or an index that holds the character,
    lies in the string and does not exceed [pos]. *)
Lemma find_last_of_spec (s : string) (c : ascii) (pos : Z) :
  0 <= pos ->
  find_last_of s c pos = npos
  \/ (0 <= find_last_of s c pos <= pos
      /\ find_last_of s c pos < StdString.size s
      /\ String.get (Z.to_nat (find_last_of s c pos)) s = Some c).
Proof.
  intros Hpos. unfold find_last_of.
  pose proof (rindex_below_spec c s (Z.to_nat (Z.min (pos + 1) (StdString.size s)))) as H.
  destruct (rindex_below c s _) as [i|]; [|now left].
  destruct H as [Hlt Hget]. right.
  rewrite Nat2Z.id. unfold StdString.size in *. repeat split; try lia; exact Hget.
Qed.

Lemma front_get (s : string) (c : ascii) :
  String.get 0 s = Some c -> front s = c.
Proof. destruct s; simpl; [discriminate | congruence]. Qed.

Lemma tryMergeFilePaths_loop_returns (parent child : string) :
  front parent <> "/"%char ->
  StdString.size parent < npos ->
  forall (fuel : nat) (slashPos prevSlashPos : Z),
    slashPos = npos
    \/ (0 <= slashPos < Z.of_nat fuel
        /\ String.get (Z.to_nat slashPos) parent = Some "/"%char) ->
    (0 < fuel)%nat ->
    exists result,
      tryMergeFilePaths_loop fs fuel parent child slashPos prevSlashPos
      = Some result.
Proof.
  intros Hfront Hsize.
  induction fuel as [|fuel IH]; intros slashPos prevSlashPos Hpos Hfuel; [lia|].
  rewrite tryMergeFilePaths_loop_step.
  destruct Hpos as [->|[Hrange Hget]]; [rewrite Z.eqb_refl; eauto|].
  destruct (slashPos =? npos); [eauto|].
  destruct (_ && _); [destruct (file_exists fs _); eauto|].
  assert (Hnz : slashPos <> 0).
  { intros ->. apply Hfront. now apply front_get. }
  assert (Hsub : size_t_sub slashPos 1 = slashPos - 1).
  { unfold size_t_sub. apply Z.mod_small. unfold npos in *.
    assert (String.get (Z.to_nat slashPos) parent <> None) by congruence.
    assert (Z.to_nat slashPos < String.length parent)%nat.
    { destruct (Nat.lt_ge_cases (Z.to_nat slashPos) (String.length parent));
        [assumption|].
      exfalso. apply H. clear -H0. revert H0.
      generalize (Z.to_nat slashPos). induction parent as [|a p IHp]; intros n Hn;
        [now destruct n|].
      destruct n; simpl in *; [lia|]. apply IHp. lia. }
    unfold StdString.size in Hsize. lia. }
  rewrite Hsub.
  destruct (find_last_of_spec parent "/"%char (slashPos - 1)) as [E|(Hr & _ & Hg)];
    [lia| |].
  - rewrite E. apply IH; [now left | lia].
  - apply IH; [right; split; [lia | exact Hg] | lia].
Qed.

(** X5.  Under a base path that does not begin with a separator the loop of
    [tryMergeFilePaths] ends: it is left after at most one round per
    character of the base path and one more, and what it answers is the
    name it was given or a file that exists. *)
Theorem tryMergeFilePaths_returns_for_relative_base :
  forall parent child : string,
    front parent <> "/"%char ->
    StdString.size parent < npos ->
    exists result,
      tryMergeFilePaths fs (S (String.length parent)) parent child = Some result
      /\ (result = child \/ file_exists fs result = true).
Proof.
  intros parent child Hfront Hsize. unfold tryMergeFilePaths.
  destruct (tryMergeFilePaths_loop_returns parent child Hfront Hsize
              (S (String.length parent)) (find_last_of parent "/"%char npos) npos)
    as [result H].
  - destruct (find_last_of_spec parent "/"%char npos) as [E|(Hr & Hlt & Hg)];
      [unfold npos; lia | now left |].
    right. unfold StdString.size in Hlt. split; [lia | exact Hg].
  - lia.
  - exists result. split; [exact H|].
    eapply tryMergeFilePaths_loop_result. exact H.
Qed.

End IconFinderPaths.

Section IconFinderPathsExamples.
Import StdString GLib IconFinder.

Lemma find_result_exists_witness :
  file_exists relocated_icon "/click/app/usr/share/icons/app.png" = true.
Proof.
  apply (find_result_exists relocated_icon 3
           {| _searchPaths := []; _basePath := "/click/app/usr" |}
           "/usr/share/icons/app.png");
    [reflexivity | discriminate].
Defined.

Lemma tryMergeFilePaths_returns_for_relative_base_witness :
  exists result,
    tryMergeFilePaths relocated_icon 8 "app/usr" "/usr/share/x.png"
    = Some result
    /\ (result = "/usr/share/x.png"%string
        \/ file_exists relocated_icon result = true).
Proof.
  apply (tryMergeFilePaths_returns_for_relative_base relocated_icon
           "app/usr" "/usr/share/x.png");
    [discriminate | reflexivity].
Defined.

End IconFinderPathsExamples.

(* ===================================================================== *)
(** * Properties of the search-path construction *)
(* ===================================================================== *)

Section SearchPathConstruction.
Import StdString GLib IconFinder.

Local Open Scope Z_scope.

(** A string of decimal digits. *)
Fixpoint all_digits (s : string) : bool :=
  match s with
  | EmptyString => true
  | String c s' => StdRegex.is_digit c && all_digits s'
  end.

Lemma leading_digits_all_digits (s : string) : all_digits (leading_digits s) = true.
Proof.
  induction s as [|c s IH]; [reflexivity|]. simpl.
  destruct (StdRegex.is_digit c) eqn:E; [simpl; now rewrite E | reflexivity].
Qed.

Lemma leading_digits_stops_at_x (d rest : string) :
  all_digits d = true -> leading_digits (d +:+ String "x" rest) = d.
Proof.
  induction d as [|c d IH]; [reflexivity|]. simpl.
  intros H. apply andb_true_iff in H as [Hc Hd]. rewrite Hc. now rewrite IH.
Qed.

Lemma iconSizeDirname_spec (s d : string) :
  iconSizeDirname s = Some d
  <-> d <> ""%string /\ all_digits d = true /\ s = d +:+ "x" +:+ d.
Proof.
  unfold iconSizeDirname. split.
  - destruct (nonempty (leading_digits s)) eqn:Hn; simpl; [|discriminate].
    destruct (String.eqb_spec s (leading_digits s +:+ "x" +:+ leading_digits s))
      as [E|_]; [|discriminate].
    intros H. inversion H; subst d. repeat split.
    + now apply nonempty_true_iff.
    + apply leading_digits_all_digits.
    + exact E.
  - intros (Hne & Hd & ->).
    change (d +:+ "x" +:+ d) with (d +:+ String "x" d).
    rewrite leading_digits_stops_at_x by exact Hd.
    apply nonempty_true_iff in Hne. rewrite Hne, String.eqb_refl. reflexivity.
Qed.

(** X8.  [iconSizeDirname] accepts exactly the names made of a non-empty run
    of digits, an [x], and the same run again, and captures that run:
    48x48 is a size directory, 48x32, 48x and x48 are not. *)
Theorem iconSizeDirname_accepts_repeated_number :
  forall s d : string,
    iconSizeDirname s = Some d
    <-> d <> ""%string /\ all_digits d = true /\ s = d +:+ "x" +:+ d.
Proof. exact iconSizeDirname_spec. Qed.

Example iconSizeDirname_samples :
  List.map iconSizeDirname
    ["48x48"; "256x256"; "48x32"; "48x"; "x48"; "48X48"; "048x48"; "scalable"]%string
  = [Some "48"; Some "256"; None; None; None; None; None; None]%string.
Proof. reflexivity. Qed.

(** ** The size read from the name of a size directory *)

Lemma leading_digits_of_digits (d : string) :
  all_digits d = true -> leading_digits d = d.
Proof.
  induction d as [|c d IH]; [reflexivity|]. simpl.
  intros H. apply andb_true_iff in H as [Hc Hd]. rewrite Hc. now rewrite IH.
Qed.

Lemma decimal_value_nonnegative (s : string) :
  forall acc n, decimal_value acc s = Some n -> 0 <= acc -> 0 <= n.
Proof.
  induction s as [|c s IH]; intros acc n H Hacc; simpl in H.
  - injection H as <-. exact Hacc.
  - destruct (StdRegex.is_digit c) eqn:Hc; [|discriminate].
    apply IH in H; [exact H|].
    unfold StdRegex.is_digit, StdRegex.in_range in Hc.
    apply andb_true_iff in Hc as [Hlo _]. cbn [fst] in Hlo.
    apply Nat.leb_le in Hlo.
    change (nat_of_ascii "0") with 48%nat in Hlo. lia.
Qed.

(** What [atoi] gives for a run of digits of value [n]: [n] itself as
    long as it fits an [int], the low 32 bits of [n] as long as it fits
    a [long], and -1 past that. *)
Lemma atoi_of_digits (d : string) (n : Z) :
  all_digits d = true ->
  decimal_value 0 d = Some n ->
  atoi d = wrap_int (Z.min n LONG_MAX)
  /\ (n <= int_max -> atoi d = n)
  /\ (LONG_MAX <= n -> atoi d = -1).
Proof.
  intros Hd Hn. unfold atoi, strtol.
  rewrite leading_digits_of_digits by exact Hd. rewrite Hn.
  pose proof (decimal_value_nonnegative d 0 n Hn (Z.le_refl 0)) as Hpos.
  split; [reflexivity|]. split.
  - intros Hfit. unfold int_max, LONG_MAX in *.
    rewrite Z.min_l by lia. unfold wrap_int.
    rewrite Z.mod_small by lia. lia.
  - intros Hbig. rewrite Z.min_r by exact Hbig. reflexivity.
Qed.

Example atoi_samples :
  List.map atoi
    ["48"; "0"; "007"; "2147483647"; "2147483648"; "4294967296";
     "9223372036854775807"; "9223372036854775808"; "99999999999999999999"]%string
  = [48; 0; 7; 2147483647; -2147483648; 0; -1; -1; -1].
Proof. reflexivity. Qed.

Variable fs : FileSystem.

(** ** Directories found by scanning a theme directory *)

Lemma scanThemeDir_entries (themeDir : string) (dirnames : list string)
    (entry : ThemeSubdirectory) :
  In entry (scanThemeDir fs themeDir dirnames) <->
  exists dirname,
    In dirname dirnames
    /\ path entry = g_build_filename [themeDir; dirname; "apps"%string]
    /\ is_dir fs (path entry) = true
    /\ ((dirname = "scalable"%string /\ size entry = 256)
        \/ (dirname <> "scalable"%string
            /\ exists d, iconSizeDirname dirname = Some d /\ size entry = atoi d)).
Proof.
  induction dirnames as [|dirname rest IH]; simpl.
  - split; [intros [] | intros (? & [] & _)].
  - assert (Hrest : In entry (scanThemeDir fs themeDir rest) ->
                    exists dirname0,
                      (dirname = dirname0 \/ In dirname0 rest)
                      /\ path entry = g_build_filename [themeDir; dirname0; "apps"%string]
                      /\ is_dir fs (path entry) = true
                      /\ ((dirname0 = "scalable"%string /\ size entry = 256)
                          \/ (dirname0 <> "scalable"%string
                              /\ exists d, iconSizeDirname dirname0 = Some d
                                           /\ size entry = atoi d))).
    { intros H. apply IH in H as (n & Hn & H). exists n. split; [now right | exact H]. }
    destruct (is_dir fs (g_build_filename [themeDir; dirname; "apps"%string])) eqn:Hdir.
    + destruct (String.eqb_spec dirname "scalable") as [Hs|Hs].
      * split.
        -- intros [<-|H]; [|now apply Hrest].
           exists dirname. simpl. repeat split; auto.
        -- intros (n & [<-|Hn] & Hp & Hd & Hsz).
           ++ left. destruct entry as [p sz]; simpl in *. subst p.
              destruct Hsz as [[_ ->]|[Hne _]]; [reflexivity | contradiction].
           ++ right. apply IH. now exists n.
      * destruct (iconSizeDirname dirname) as [digits|] eqn:Hm.
        -- split.
           ++ intros [<-|H]; [|now apply Hrest].
              exists dirname. simpl. repeat split; auto.
              right. split; [exact Hs|]. now exists digits.
           ++ intros (n & [<-|Hn] & Hp & Hd & Hsz).
              ** left. destruct entry as [p sz]; simpl in *. subst p.
                 destruct Hsz as [[Hc _]|[_ (d & Hd' & ->)]]; [contradiction|].
                 congruence.
              ** right. apply IH. now exists n.
        -- split; [exact Hrest|].
           intros (n & [<-|Hn] & Hp & Hd & Hsz).
           ++ destruct Hsz as [[Hc _]|[_ (d & Hd' & _)]]; [contradiction | congruence].
           ++ apply IH. now exists n.
    + split; [exact Hrest|].
      intros (n & [<-|Hn] & Hp & Hd & Hsz).
      * rewrite Hp in Hd. congruence.
      * apply IH. now exists n.
Qed.

(** X9.  The entries [themeDirSearchPaths] returns are exactly these: for
    each name read from the theme directory whose [apps] sub-directory
    is a directory, one entry of size 256 when the name is [scalable],
    and one of size [atoi] of N when the name is NxN, which is N as long
    as N fits an [int], its low 32 bits as long as N fits a [long], and
    -1 past that ([atoi_of_digits]); every other name, and every name
    when the directory cannot be opened, gives nothing. *)
Theorem themeDirSearchPaths_entries :
  forall (themeDir : string) (entry : ThemeSubdirectory),
    In entry (themeDirSearchPaths fs themeDir) <->
    exists dirnames dirname,
      read_dir fs themeDir = Some dirnames
      /\ In dirname dirnames
      /\ path entry = g_build_filename [themeDir; dirname; "apps"%string]
      /\ is_dir fs (path entry) = true
      /\ ((dirname = "scalable"%string /\ size entry = 256)
          \/ (dirname <> "scalable"%string
              /\ exists d, d <> ""%string /\ all_digits d = true
                           /\ dirname = d +:+ "x" +:+ d
                           /\ size entry = atoi d)).
Proof.
  intros themeDir entry. unfold themeDirSearchPaths.
  destruct (read_dir fs themeDir) as [dirnames|].
  - rewrite scanThemeDir_entries. split.
    + intros (n & Hn & Hp & Hd & Hsz). exists dirnames, n.
      repeat split; auto.
      destruct Hsz as [H|[Hne (d & Hm & Hsz)]]; [now left|right].
      split; [exact Hne|]. exists d.
      apply iconSizeDirname_spec in Hm as (? & ? & ?). auto.
    + intros (ns & n & E & Hn & Hp & Hd & Hsz). inversion E; subst ns.
      exists n. repeat split; auto.
      destruct Hsz as [H|[Hne (d & H1 & H2 & H3 & Hsz)]]; [now left|right].
      split; [exact Hne|]. exists d. split; [|exact Hsz].
      apply iconSizeDirname_spec. auto.
  - split; [intros [] | intros (? & ? & E & _); discriminate].
Qed.

(** ** Directories declared by a theme index *)

Lemma validDirectories_entries (themePath directory : string) (sz : Z)
    (entry : ThemeSubdirectory) :
  In entry (validDirectories fs themePath directory sz) <->
  path entry = g_build_filename [themePath; directory]
  /\ file_exists fs (path entry) = true
  /\ size entry = sz.
Proof.
  unfold validDirectories.
  destruct (file_exists fs (g_build_filename [themePath; directory])) eqn:E.
  - split.
    + intros [<-|[]]. simpl. auto.
    + intros (Hp & _ & Hs). left. destruct entry; simpl in *. congruence.
  - split; [intros []|]. intros (Hp & He & _). rewrite Hp in He. congruence.
Qed.

(** The size a stanza of the index declares, by its [Type]. *)
Definition declares_size (themefile : GKeyFile) (directory : string) (sz : Z)
  : Prop :=
  (g_key_file_get_string themefile directory "Type" = Some "Fixed"%string
   /\ g_key_file_get_integer themefile directory "Size" = Some sz)
  \/ (g_key_file_get_string themefile directory "Type" = Some "Scalable"%string
      /\ g_key_file_get_integer themefile directory "MaxSize" = Some sz)
  \/ (g_key_file_get_string themefile directory "Type" = Some "Threshold"%string
      /\ exists base,
           g_key_file_get_integer themefile directory "Size" = Some base
           /\ sz = wrap_int
                     (base + match g_key_file_get_integer themefile directory
                                     "Threshold" with
                             | Some threshold => threshold
                             | None => 2
                             end)).

Lemma addSubdirectoryByType_entries (themefile : GKeyFile)
    (directory themePath : string) (entry : ThemeSubdirectory) :
  In entry (addSubdirectoryByType fs themefile directory themePath) <->
  path entry = g_build_filename [themePath; directory]
  /\ file_exists fs (path entry) = true
  /\ declares_size themefile directory (size entry).
Proof.
  unfold addSubdirectoryByType, declares_size,
    TYPE_PROPERTY, FIXED_CONTEXT, SCALABLE_CONTEXT, THRESHOLD_CONTEXT,
    SIZE_PROPERTY, MAXSIZE_PROPERTY, THRESHOLD_PROPERTY.
  destruct (g_key_file_get_string themefile directory "Type") as [type|].
  2:{ split; [intros []|]. intros (_ & _ & [[H _]|[[H _]|[H _]]]); discriminate. }
  destruct (String.eqb_spec type "Fixed") as [->|Hf].
  { destruct (g_key_file_get_integer themefile directory "Size") as [sz|].
    - rewrite validDirectories_entries. split.
      + intros (Hp & He & Hs). repeat split; auto. left. split; congruence.
      + intros (Hp & He & [[_ H]|[[H _]|[H _]]]); try discriminate.
        repeat split; auto. congruence.
    - split; [intros []|].
      intros (_ & _ & [[_ H]|[[H _]|[H _]]]); discriminate. }
  destruct (String.eqb_spec type "Scalable") as [->|Hs].
  { destruct (g_key_file_get_integer themefile directory "MaxSize") as [sz|].
    - rewrite validDirectories_entries. split.
      + intros (Hp & He & Hsz). repeat split; auto. right; left. split; congruence.
      + intros (Hp & He & [[H _]|[[_ H]|[H _]]]); try discriminate.
        repeat split; auto. congruence.
    - split; [intros []|].
      intros (_ & _ & [[H _]|[[_ H]|[H _]]]); discriminate. }
  destruct (String.eqb_spec type "Threshold") as [->|Ht].
  { destruct (g_key_file_get_integer themefile directory "Size") as [sz|].
    - rewrite validDirectories_entries. split.
      + intros (Hp & He & Hsz). repeat split; auto. right; right.
        split; [reflexivity|]. exists sz. split; [reflexivity | congruence].
      + intros (Hp & He & [[H _]|[[H _]|[_ (base & Hb & Hsz)]]]); try discriminate.
        repeat split; auto. congruence.
    - split; [intros []|].
      intros (_ & _ & [[H _]|[[H _]|[_ (base & Hb & _)]]]); discriminate. }
  split; [intros []|].
  intros (_ & _ & [[H _]|[[H _]|[H _]]]); congruence.
Qed.

Lemma searchIconPaths_entries (themefile : GKeyFile) (directories : list string)
    (themePath : string) (entry : ThemeSubdirectory) :
  In entry (searchIconPaths fs themefile directories themePath) <->
  exists directory,
    In directory directories
    /\ g_key_file_get_string themefile directory "Context" = Some "Applications"%string
    /\ In entry (addSubdirectoryByType fs themefile directory themePath).
Proof.
  induction directories as [|directory rest IH]; simpl.
  - split; [intros [] | intros (? & [] & _)].
  - unfold CONTEXT_PROPERTY, APPLICATIONS_TYPE.
    destruct (g_key_file_get_string themefile directory "Context") as [context|] eqn:E.
    + rewrite List.in_app_iff, IH.
      destruct (String.eqb_spec context "Applications") as [->|Hc].
      * split.
        -- intros [H|(d & Hd & H)]; [exists directory; auto | exists d; auto].
        -- intros (d & [<-|Hd] & Hctx & H); [now left | right; now exists d].
      * split.
        -- intros [[]|(d & Hd & H)]. exists d; auto.
        -- intros (d & [<-|Hd] & Hctx & H); [congruence | right; now exists d].
    + rewrite IH. split.
      * intros (d & Hd & H). exists d; auto.
      * intros (d & [<-|Hd] & Hctx & H); [congruence | now exists d].
Qed.

(** X10.  The entries [themeFileSearchPaths] returns are exactly these: the
    index file of the theme loads and has a [Directories] list; the
    entry is a listed directory whose stanza has [Context] equal to
    [Applications]; the directory exists under the theme; and its size
    is the stanza's [Size] for type [Fixed], its [MaxSize] for type
    [Scalable], and [Size] plus [Threshold] (2 when the stanza has none)
    for type [Threshold].  A stanza without [Context], without [Type],
    of another type, or without the size key gives nothing. *)
Theorem themeFileSearchPaths_entries :
  forall (themePath : string) (entry : ThemeSubdirectory),
    In entry (themeFileSearchPaths fs themePath) <->
    exists (themefile : GKeyFile) (directories : list string) (directory : string),
      load_key_file fs (g_build_filename [themePath; "index.theme"%string])
      = Some themefile
      /\ g_key_file_get_string_list themefile "Icon Theme" "Directories"
         = Some directories
      /\ In directory directories
      /\ g_key_file_get_string themefile directory "Context"
         = Some "Applications"%string
      /\ path entry = g_build_filename [themePath; directory]
      /\ file_exists fs (path entry) = true
      /\ declares_size themefile directory (size entry).
Proof.
  intros themePath entry. unfold themeFileSearchPaths,
    THEME_INDEX_FILE, ICON_THEME_KEY, DIRECTORIES_PROPERTY.
  destruct (load_key_file fs (g_build_filename [themePath; "index.theme"%string]))
    as [themefile|].
  2:{ split; [intros [] | intros (? & ? & ? & E & _); discriminate]. }
  destruct (g_key_file_get_string_list themefile "Icon Theme" "Directories")
    as [directories|] eqn:El.
  2:{ split; [intros []|]. intros (tf & ds & d & E & E' & _).
      inversion E; subst. congruence. }
  rewrite searchIconPaths_entries. split.
  - intros (d & Hd & Hctx & H). apply addSubdirectoryByType_entries in H.
    exists themefile, directories, d. tauto.
  - intros (tf & ds & d & E & E' & Hd & Hctx & H). inversion E; subst tf.
    assert (ds = directories) by congruence. subst ds.
    exists d. rewrite addSubdirectoryByType_entries. tauto.
Qed.

Lemma themeFileSearchPaths_index_entry_exists (themePath : string)
    (entry : ThemeSubdirectory) :
  In entry (themeFileSearchPaths fs themePath) -> file_exists fs (path entry) = true.
Proof.
  unfold themeFileSearchPaths.
  destruct (load_key_file fs _) as [themefile|]; [|intros []].
  destruct (g_key_file_get_string_list themefile _ _) as [directories|]; [|intros []].
  intros H. apply searchIconPaths_entries in H as (d & _ & _ & H).
  now apply addSubdirectoryByType_entries in H.
Qed.

Lemma scanned_entry_is_dir (themeDir : string) (entry : ThemeSubdirectory) :
  In entry (themeDirSearchPaths fs themeDir) -> is_dir fs (path entry) = true.
Proof.
  unfold themeDirSearchPaths.
  destruct (read_dir fs themeDir) as [dirnames|]; [|intros []].
  intros H. now apply scanThemeDir_entries in H as (n & _ & _ & H & _).
Qed.

(** ** The search paths of a base path *)

Lemma iconsFromThemePath_entries (themeDir : string) (entry : ThemeSubdirectory) :
  In entry (iconsFromThemePath fs themeDir) <->
  is_dir fs themeDir = true
  /\ (entry = {| path := themeDir; size := 1 |}
      \/ In entry (themeFileSearchPaths fs themeDir)
      \/ (themeFileSearchPaths fs themeDir = []
          /\ In entry (themeDirSearchPaths fs themeDir))).
Proof.
  unfold iconsFromThemePath.
  destruct (is_dir fs themeDir); [|split; [intros [] | intros [? _]; discriminate]].
  destruct (themeFileSearchPaths fs themeDir) as [|e l] eqn:E; simpl.
  - split.
    + intros [<-|H]; auto.
    + intros (_ & [->|[[]|[_ H]]]); auto.
  - split.
    + intros [<-|H]; auto.
    + intros (_ & [->|[H|[H _]]]); auto. discriminate.
Qed.

Lemma getSearchPaths_In (basePath : string) (entry : ThemeSubdirectory) :
  In entry (getSearchPaths fs basePath) <-> In entry (collectSearchPaths fs basePath).
Proof.
  unfold getSearchPaths.
  destruct (sort_by_key_descending size (collectSearchPaths fs basePath))
    as (_ & _ & Hperm).
  split; intros H.
  - eapply Permutation_in; [exact Hperm | exact H].
  - eapply Permutation_in; [symmetry; exact Hperm | exact H].
Qed.

(** X11.  What [getSearchPaths] lists for a base path, and nothing else: for
    each of the hicolor and Humanity theme directories that is a
    directory, the theme directory itself at size 1, the directories its
    index declares, and, only when the index gives none, the directories
    found by scanning it; the icons directory at size 1 when it is a
    directory; and the pixmaps directory at size 1 when it is one. *)
Theorem getSearchPaths_entries :
  forall (basePath : string) (entry : ThemeSubdirectory),
    In entry (getSearchPaths fs basePath) <->
    (exists themeDir,
        (themeDir = g_build_filename [basePath; "/icons/hicolor"%string]
         \/ themeDir = g_build_filename [basePath; "/icons/Humanity"%string])
        /\ is_dir fs themeDir = true
        /\ (entry = {| path := themeDir; size := 1 |}
            \/ In entry (themeFileSearchPaths fs themeDir)
            \/ (themeFileSearchPaths fs themeDir = []
                /\ In entry (themeDirSearchPaths fs themeDir))))
    \/ (is_dir fs (g_build_filename [basePath; "/icons"%string]) = true
        /\ entry = {| path := g_build_filename [basePath; "/icons"%string];
                      size := 1 |})
    \/ (is_dir fs (g_build_filename [basePath; "/pixmaps/"%string]) = true
        /\ entry = {| path := g_build_filename [basePath; "/pixmaps/"%string];
                      size := 1 |}).
Proof.
  intros basePath entry. rewrite getSearchPaths_In.
  unfold collectSearchPaths, HICOLOR_THEME_DIR, HUMANITY_THEME_DIR, ICONS_DIR,
    PIXMAPS_PATH.
  rewrite !List.in_app_iff, !iconsFromThemePath_entries. split.
  - intros [H|[H|[H|H]]].
    + left. eexists. split; [left; reflexivity | exact H].
    + left. eexists. split; [right; reflexivity | exact H].
    + right; left. destruct (is_dir fs _); [|destruct H].
      destruct H as [<-|[]]. auto.
    + right; right. destruct (is_dir fs _); [|destruct H].
      destruct H as [<-|[]]. auto.
  - intros [(themeDir & [-> | ->] & H) | [[Hd ->] | [Hd ->]]].
    + now left.
    + right; now left.
    + right; right; left. rewrite Hd. now left.
    + right; right; right. rewrite Hd. now left.
Qed.

(** X12.  Every search path existed when the list was built: each entry
    names something the file system reported as existing or as a
    directory. *)
Theorem getSearchPaths_entry_exists :
  forall (basePath : string) (entry : ThemeSubdirectory),
    In entry (getSearchPaths fs basePath) ->
    file_exists fs (path entry) = true \/ is_dir fs (path entry) = true.
Proof.
  intros basePath entry H. apply getSearchPaths_In in H.
  unfold collectSearchPaths in H. rewrite !List.in_app_iff in H.
  assert (Htheme : forall themeDir,
             In entry (iconsFromThemePath fs themeDir) ->
             file_exists fs (path entry) = true \/ is_dir fs (path entry) = true).
  { intros themeDir Hin.
    apply iconsFromThemePath_entries in Hin as (Hd & [->|[Hin|[_ Hin]]]).
    - now right.
    - apply themeFileSearchPaths_index_entry_exists in Hin. now left.
    - apply scanned_entry_is_dir in Hin. now right. }
  destruct H as [H|[H|[H|H]]]; eauto.
  - destruct (is_dir fs _) eqn:E; [|destruct H]. destruct H as [<-|[]]. now right.
  - destruct (is_dir fs _) eqn:E; [|destruct H]. destruct H as [<-|[]]. now right.
Qed.

(** X13.  A base path without any of the four icon directories has no search
    path, and [find] then answers every name that does not begin with a
    separator with the empty path. *)
Theorem find_without_icon_directories :
  forall (basePath : string),
    is_dir fs (g_build_filename [basePath; "/icons/hicolor"%string]) = false ->
    is_dir fs (g_build_filename [basePath; "/icons/Humanity"%string]) = false ->
    is_dir fs (g_build_filename [basePath; "/icons"%string]) = false ->
    is_dir fs (g_build_filename [basePath; "/pixmaps/"%string]) = false ->
    getSearchPaths fs basePath = []
    /\ forall (fuel : nat) (iconName : string),
         front iconName <> "/"%char ->
         find fs fuel (new_IconFinder fs basePath) iconName = Some ""%string.
Proof.
  intros basePath H1 H2 H3 H4.
  assert (E : getSearchPaths fs basePath = []).
  { unfold getSearchPaths, collectSearchPaths, iconsFromThemePath,
      HICOLOR_THEME_DIR, HUMANITY_THEME_DIR, ICONS_DIR, PIXMAPS_PATH.
    rewrite H1, H2, H3, H4. reflexivity. }
  split; [exact E|].
  intros fuel iconName Hrel. rewrite find_relative_name by exact Hrel.
  unfold new_IconFinder. simpl. rewrite E. reflexivity.
Qed.

End SearchPathConstruction.

Section SearchPathExamples.
Import StdString GLib IconFinder.

Local Open Scope Z_scope.

(** A base path that holds no icon directory at all. *)
Definition no_icons : FileSystem := fs_of [] ["/opt/bare"%string] (fun _ => None).

Lemma find_without_icon_directories_witness :
  getSearchPaths no_icons "/opt/bare" = []
  /\ forall (fuel : nat) (iconName : string),
       front iconName <> "/"%char ->
       find no_icons fuel (new_IconFinder no_icons "/opt/bare") iconName
       = Some ""%string.
Proof.
  apply (find_without_icon_directories no_icons "/opt/bare"); reflexivity.
Defined.

Lemma getSearchPaths_entry_exists_witness :
  file_exists scanned_theme "/app/icons/hicolor/48x48/apps" = true
  \/ is_dir scanned_theme "/app/icons/hicolor/48x48/apps" = true.
Proof.
  apply (getSearchPaths_entry_exists scanned_theme "/app"
           {| path := "/app/icons/hicolor/48x48/apps"; size := 48 |}).
  vm_compute. tauto.
Defined.

End SearchPathExamples.

(* ===================================================================== *)
(** * Further properties of the snap store backend *)
(* ===================================================================== *)

Section SnapNames.
Import StdRegex AppStoreSnap.

Ltac run_names :=
  unfold verifyAppname, findAppname, throw, pkgInfo, mbind, call_bind, mret,
    call_ret; simpl.

Lemma set_contains_In (s : AppNameSet) (x : AppName) :
  set_contains s x = true <-> In x (elements s).
Proof.
  unfold set_contains. rewrite existsb_exists. split.
  - intros (y & Hy & E). apply String.eqb_eq in E. now subst.
  - intros H. exists x. split; [exact H | apply String.eqb_refl].
Qed.

(** X14.  [verifyAppname] answers [true] exactly when the name has the snap
    name format, the daemon knows the package, and the package declares
    the name; it has then made the one lookup of the package.  A name of
    another format is refused before any lookup. *)
Theorem verifyAppname_true_iff_declared :
  forall (registry : Registry) (package : Package) (appname : AppName)
         (log log' : list Package),
    (verifyAppname registry package appname log = (Returns true, log') <->
     regex_match appname appnameRegex = true
     /\ (exists info : PkgInfo,
           snapdInfo registry package = Returns (Some info)
           /\ In appname (elements (appnames info)))
     /\ log' = log ++ [package])
    /\ (regex_match appname appnameRegex = false ->
        verifyAppname registry package appname log = (Returns false, log)).
Proof.
  intros registry package appname log log'. split.
  - run_names. destruct (regex_match appname appnameRegex); simpl.
    + destruct (snapdInfo registry package) as [[info|]|e] eqn:E.
      * split.
        -- intros H. inversion H. split; [reflexivity|]. split; [|reflexivity].
           exists info. split; [reflexivity|]. now apply set_contains_In.
        -- intros (_ & (info' & Hi & Hin) & ->). inversion Hi; subst info'.
           apply set_contains_In in Hin. now rewrite Hin.
      * split; [discriminate|]. intros (_ & (info' & Hi & _) & _). discriminate.
      * split; [discriminate|]. intros (_ & (info' & Hi & _) & _). discriminate.
    + split; [discriminate | intros [H _]; discriminate].
  - intros H. run_names. now rewrite H.
Qed.

(** X15.  Whatever [findAppname] resolves is an app name the package
    declares, so [verifyAppname] accepts it for that package as soon as
    it has the snap name format (and refuses it otherwise). *)
Theorem findAppname_result_is_declared :
  forall (registry : Registry) (package : Package) (card : ApplicationWildcard)
         (log log' : list Package) (resolved : AppName),
    findAppname registry package card log = (Returns resolved, log') ->
    (exists info : PkgInfo,
        snapdInfo registry package = Returns (Some info)
        /\ In resolved (elements (appnames info)))
    /\ forall log2,
         verifyAppname registry package resolved log2
         = if regex_match resolved appnameRegex
           then (Returns true, log2 ++ [package])
           else (Returns false, log2).
Proof.
  intros registry package card log log' resolved H.
  assert (Hdecl : exists info : PkgInfo,
             snapdInfo registry package = Returns (Some info)
             /\ In resolved (elements (appnames info))).
  { destruct (snapdInfo registry package) as [[info|]|e] eqn:E.
    - exists info. split; [reflexivity|].
      rewrite (findAppname_known _ _ _ _ _ E) in H.
      destruct (set_empty (appnames info)) eqn:Hempty; [discriminate|].
      assert (Hne : elements (appnames info) <> []).
      { intros Hnil. apply set_empty_true_iff in Hnil. congruence. }
      destruct card.
      + inversion H. now apply set_begin_least.
      + inversion H. now apply set_rbegin_greatest.
      + destruct (negb _); [discriminate|]. inversion H. now apply set_begin_least.
    - revert H. run_names. rewrite E. discriminate.
    - revert H. run_names. rewrite E. discriminate. }
  split; [exact Hdecl|].
  destruct Hdecl as (info & Hi & Hin). intros log2. run_names.
  destruct (regex_match resolved appnameRegex); simpl; [|reflexivity].
  rewrite Hi. apply set_contains_In in Hin. now rewrite Hin.
Qed.

Lemma verifyAppname_true_iff_declared_witness :
  verifyAppname sample_registry "calculator" "calc-cli" []
  = (Returns true, ["calculator"%string]).
Proof.
  apply (proj1 (verifyAppname_true_iff_declared sample_registry "calculator"
                  "calc-cli" [] ["calculator"%string])).
  split; [reflexivity|]. split; [|reflexivity].
  eexists. split; [reflexivity|]. right. now left.
Defined.

Lemma findAppname_result_is_declared_witness :
  (exists info : PkgInfo,
      snapdInfo sample_registry "calculator" = Returns (Some info)
      /\ In "calc-cli"%string (elements (appnames info)))
  /\ forall log2,
       verifyAppname sample_registry "calculator" "calc-cli" log2
       = if regex_match "calc-cli" appnameRegex
         then (Returns true, log2 ++ ["calculator"%string])
         else (Returns false, log2).
Proof.
  apply (findAppname_result_is_declared sample_registry "calculator" LAST_LISTED
           [] ["calculator"%string] "calc-cli").
  reflexivity.
Defined.

End SnapNames.

(* ===================================================================== *)
(** * Further properties of the desktop hook *)
(* ===================================================================== *)

Section DesktopHookScan.
Import GLib DesktopHook.

Local Open Scope Z_scope.

(** ** The array of states *)

Lemma index_of_app_Some (name : string) (app_array : list app_state_t) :
  forall i, index_of_app name app_array = Some i ->
            exists l1 state l2,
              app_array = l1 ++ state :: l2
              /\ i = List.length l1
              /\ app_id state = name.
Proof.
  induction app_array as [|state rest IH]; intros i H; [discriminate|].
  simpl in H. destruct (String.eqb_spec (app_id state) name) as [E|_].
  - inversion H; subst i. exists [], state, rest. auto.
  - destruct (index_of_app name rest) as [j|]; [|discriminate].
    inversion H; subst i.
    destruct (IH j eq_refl) as (l1 & st & l2 & -> & -> & Hid).
    exists (state :: l1), st, l2. auto.
Qed.

Lemma index_of_app_None (name : string) (app_array : list app_state_t) :
  index_of_app name app_array = None -> ~ In name (List.map app_id app_array).
Proof.
  induction app_array as [|state rest IH]; intros H; [intros []|].
  simpl in H. destruct (String.eqb_spec (app_id state) name) as [E|Hne];
    [discriminate|].
  destruct (index_of_app name rest); [discriminate|].
  intros [E|Hin]; [contradiction | now apply IH].
Qed.

Lemma alter_middle (f : app_state_t -> app_state_t) (l1 l2 : list app_state_t)
    (x : app_state_t) :
  alter f (List.length l1) (l1 ++ x :: l2) = l1 ++ f x :: l2.
Proof.
  induction l1 as [|y l1 IH]; [reflexivity|].
  change (y :: alter f (List.length l1) (l1 ++ x :: l2) = y :: l1 ++ f x :: l2).
  now rewrite IH.
Qed.

Lemma alter_last (f : app_state_t -> app_state_t) (l : list app_state_t)
    (x : app_state_t) :
  alter f (List.length l) (l ++ [x]) = l ++ [f x].
Proof. apply alter_middle. Qed.

(** The entry with no observation yet that [find_app_entry] appends. *)
Definition fresh_state (name : string) : app_state_t :=
  {| app_id := name; has_click := false; has_desktop := false;
     click_created := 0; desktop_created := 0 |}.

(** What one observation does to the array: the entry of the identity
    is updated in place, or a fresh entry is appended and updated;
    nothing else changes. *)
Lemma observe_shape (f : app_state_t -> app_state_t) (name : string)
    (app_array : list app_state_t) :
  (exists l1 state l2,
      app_array = l1 ++ state :: l2
      /\ app_id state = name
      /\ (let '(i, grown) := find_app_entry name app_array in alter f i grown)
         = l1 ++ f state :: l2)
  \/ (~ In name (List.map app_id app_array)
      /\ (let '(i, grown) := find_app_entry name app_array in alter f i grown)
         = app_array ++ [f (fresh_state name)]).
Proof.
  unfold find_app_entry.
  destruct (index_of_app name app_array) as [i|] eqn:E.
  - left. destruct (index_of_app_Some _ _ _ E) as (l1 & st & l2 & -> & -> & Hid).
    exists l1, st, l2. repeat split; auto. apply alter_middle.
  - right. split; [now apply index_of_app_None|]. apply alter_last.
Qed.

Variable fs : FileSystem.

(** The names the two scans read. *)
Variables click_names desktop_names : list string.

(** A name [add_desktop_file] takes for one of its own files. *)
Definition generated_name (name : string) : bool :=
  g_str_has_suffix name ".desktop" && g_str_has_prefix name "click-".

(** What holds of every entry of the array during and after the scans. *)
Definition observed (state : app_state_t) : Prop :=
  (has_click state = true \/ has_desktop state = true)
  /\ (has_click state = true -> In (app_id state) click_names)
  /\ (has_desktop state = true ->
      exists name, In name desktop_names
                   /\ generated_name name = true
                   /\ desktop_file_app_id name = app_id state).

Definition scan_invariant (app_array : list app_state_t) : Prop :=
  NoDup (List.map app_id app_array) /\ Forall observed app_array.

Lemma observe_keeps_invariant (f : app_state_t -> app_state_t) (name : string)
    (app_array : list app_state_t) :
  (forall state, app_id (f state) = app_id state) ->
  (forall state, app_id state = name ->
                 observed state \/ state = fresh_state name ->
                 observed (f state)) ->
  scan_invariant app_array ->
  scan_invariant (let '(i, grown) := find_app_entry name app_array in
                  alter f i grown).
Proof.
  intros Hid Hobs [Hnodup Hall].
  destruct (observe_shape f name app_array)
    as [(l1 & st & l2 & -> & Hname & ->)|[Hfresh ->]].
  - split.
    + rewrite List.map_app in *. simpl in *. now rewrite Hid.
    + apply Forall_app in Hall as [H1 H2].
      apply Forall_cons_iff in H2 as [Hst H2].
      apply Forall_app. split; [exact H1|].
      constructor; [|exact H2]. apply Hobs; auto.
  - split.
    + rewrite List.map_app. simpl. rewrite Hid. simpl.
      apply NoDup_app. split; [exact Hnodup|]. split.
      * intros x Hx Hx'. apply list_elem_of_In in Hx.
        apply list_elem_of_In in Hx'. destruct Hx' as [<-|[]]. contradiction.
      * apply NoDup_singleton.
    + apply Forall_app. split; [exact Hall|].
      constructor; [|constructor]. apply Hobs; [reflexivity | now right].
Qed.

Lemma add_click_package_keeps_invariant (dir name : string)
    (app_array : list app_state_t) :
  In name click_names ->
  scan_invariant app_array ->
  scan_invariant (add_click_package fs dir name app_array).
Proof.
  intros Hin Hinv. unfold add_click_package.
  apply observe_keeps_invariant; [reflexivity | | exact Hinv].
  intros state Hname Hstate. unfold observed. simpl.
  split; [now left|]. split; [intros _; now rewrite Hname|].
  destruct Hstate as [(_ & _ & H)| ->]; [exact H | discriminate].
Qed.

Lemma add_desktop_file_keeps_invariant (dir name : string)
    (app_array : list app_state_t) :
  In name desktop_names ->
  scan_invariant app_array ->
  scan_invariant (add_desktop_file fs dir name app_array).
Proof.
  intros Hin Hinv. unfold add_desktop_file.
  destruct (g_str_has_suffix name ".desktop") eqn:Hs; simpl; [|exact Hinv].
  destruct (g_str_has_prefix name "click-") eqn:Hp; simpl; [|exact Hinv].
  apply observe_keeps_invariant; [reflexivity | | exact Hinv].
  intros state Hname Hstate. unfold observed. simpl.
  split; [now right|]. split.
  - destruct Hstate as [(_ & H & _)| ->]; [exact H | discriminate].
  - intros _. exists name. unfold generated_name. rewrite Hs, Hp. auto.
Qed.

Lemma fold_keeps_invariant
    (func : string -> string -> list app_state_t -> list app_state_t)
    (dir : string) (listed : list string) :
  (forall name app_array,
      In name listed -> scan_invariant app_array ->
      scan_invariant (func dir name app_array)) ->
  forall names app_array,
    (forall name, In name names -> In name listed) ->
    scan_invariant app_array ->
    scan_invariant
      (fold_left (fun app_array filename => func dir filename app_array)
         names app_array).
Proof.
  intros Hstep. induction names as [|name names IH]; intros app_array Hsub Hinv;
    [exact Hinv|].
  simpl. apply IH; [intros n Hn; apply Hsub; now right|].
  apply Hstep; [apply Hsub; now left | exact Hinv].
Qed.

End DesktopHookScan.

Section DesktopHookScanComplete.
Import GLib DesktopHook.

Local Open Scope Z_scope.

Variable fs : FileSystem.

(** The array has an entry of the identity with the flag set. *)
Definition marked (flag : app_state_t -> bool) (identity : string)
    (app_array : list app_state_t) : Prop :=
  exists state, In state app_array /\ app_id state = identity
                /\ flag state = true.

Lemma observe_keeps_marked (flag : app_state_t -> bool)
    (f : app_state_t -> app_state_t) (identity name : string)
    (app_array : list app_state_t) :
  (forall state, app_id (f state) = app_id state) ->
  (forall state, flag state = true -> flag (f state) = true) ->
  marked flag identity app_array ->
  marked flag identity (let '(i, grown) := find_app_entry name app_array in
                        alter f i grown).
Proof.
  intros Hid Hflag (state & Hin & Hname & Hset).
  destruct (observe_shape f name app_array)
    as [(l1 & st & l2 & -> & _ & ->)|[_ ->]].
  - apply in_app_or in Hin as [Hin|[<-|Hin]].
    + exists state. split; [apply in_or_app; now left | auto].
    + exists (f st). split; [apply in_or_app; right; now left|].
      rewrite Hid. auto.
    + exists state. split; [apply in_or_app; right; now right | auto].
  - exists state. split; [apply in_or_app; now left | auto].
Qed.

Lemma observe_marks (flag : app_state_t -> bool)
    (f : app_state_t -> app_state_t) (name : string)
    (app_array : list app_state_t) :
  (forall state, app_id (f state) = app_id state) ->
  (forall state, flag (f state) = true) ->
  marked flag name (let '(i, grown) := find_app_entry name app_array in
                    alter f i grown).
Proof.
  intros Hid Hflag.
  destruct (observe_shape f name app_array)
    as [(l1 & st & l2 & -> & Hname & ->)|[_ ->]].
  - exists (f st). split; [apply in_or_app; right; now left|].
    rewrite Hid. auto.
  - exists (f (fresh_state name)). split; [apply in_or_app; right; now left|].
    rewrite Hid. auto.
Qed.

Lemma add_click_package_keeps_marked (flag : app_state_t -> bool)
    (identity dir name : string) (app_array : list app_state_t) :
  flag = has_click \/ flag = has_desktop ->
  marked flag identity app_array ->
  marked flag identity (add_click_package fs dir name app_array).
Proof.
  intros Hflag. unfold add_click_package.
  apply observe_keeps_marked; [reflexivity|].
  destruct Hflag as [-> | ->]; auto.
Qed.

Lemma add_desktop_file_keeps_marked (flag : app_state_t -> bool)
    (identity dir name : string) (app_array : list app_state_t) :
  flag = has_click \/ flag = has_desktop ->
  marked flag identity app_array ->
  marked flag identity (add_desktop_file fs dir name app_array).
Proof.
  intros Hflag Hm. unfold add_desktop_file.
  destruct (negb (g_str_has_suffix name ".desktop")); [exact Hm|].
  destruct (negb (g_str_has_prefix name "click-")); [exact Hm|].
  revert Hm. apply observe_keeps_marked; [reflexivity|].
  destruct Hflag as [-> | ->]; auto.
Qed.

Lemma add_click_package_marks (dir name : string)
    (app_array : list app_state_t) :
  marked has_click name (add_click_package fs dir name app_array).
Proof. unfold add_click_package. now apply observe_marks. Qed.

Lemma add_desktop_file_marks (dir name : string)
    (app_array : list app_state_t) :
  g_str_has_suffix name ".desktop" = true ->
  g_str_has_prefix name "click-" = true ->
  marked has_desktop (desktop_file_app_id name)
    (add_desktop_file fs dir name app_array).
Proof.
  intros Hs Hp. unfold add_desktop_file. rewrite Hs, Hp. simpl.
  now apply observe_marks.
Qed.

Lemma fold_keeps_marked
    (func : string -> string -> list app_state_t -> list app_state_t)
    (flag : app_state_t -> bool) (identity dir : string) :
  (forall name app_array,
      marked flag identity app_array ->
      marked flag identity (func dir name app_array)) ->
  forall names app_array,
    marked flag identity app_array ->
    marked flag identity
      (fold_left (fun app_array filename => func dir filename app_array)
         names app_array).
Proof.
  intros Hstep. induction names as [|name names IH]; intros app_array Hm;
    [exact Hm|].
  simpl. apply IH, Hstep, Hm.
Qed.

Lemma fold_marks
    (func : string -> string -> list app_state_t -> list app_state_t)
    (flag : app_state_t -> bool) (key : string -> option string) (dir : string) :
  (forall identity name app_array,
      marked flag identity app_array ->
      marked flag identity (func dir name app_array)) ->
  (forall name identity app_array,
      key name = Some identity ->
      marked flag identity (func dir name app_array)) ->
  forall names app_array name identity,
    In name names -> key name = Some identity ->
    marked flag identity
      (fold_left (fun app_array filename => func dir filename app_array)
         names app_array).
Proof.
  intros Hkeep Hmark.
  induction names as [|n names IH]; intros app_array name identity Hin Hkey;
    [destruct Hin|].
  simpl. destruct Hin as [-> | Hin].
  - apply fold_keeps_marked; [apply Hkeep|]. now apply Hmark.
  - now apply (IH _ name).
Qed.

End DesktopHookScanComplete.

Section DesktopFileNames.
Import GLib DesktopHook.

(** ** The name of a generated desktop file, written and read back *)

Lemma append_cons (c : ascii) (a s : string) :
  String c a +:+ s = String c (a +:+ s).
Proof. reflexivity. Qed.

Lemma append_nil (s : string) : "" +:+ s = s.
Proof. reflexivity. Qed.

(** No proper end of [.desktop] is a beginning of it, so the suffix
    cannot start inside what precedes it. *)
Lemma suffix_has_no_border (a : string) :
  a <> ""%string ->
  String.prefix ".desktop" a = false ->
  String.prefix ".desktop" (a +:+ ".desktop") = false.
Proof.
  intros Hne.
  destruct a as [|c0 a]; [congruence|]. clear Hne.
  do 7 (rewrite append_cons; cbn [String.prefix];
        destruct (ascii_dec _ _); [|reflexivity];
        destruct a as [|? a]; [reflexivity|]).
  rewrite append_cons; cbn [String.prefix].
  destruct (ascii_dec _ _); [|reflexivity].
  destruct a; cbn [String.prefix]; discriminate.
Qed.

Lemma index_after_identity (id : string) :
  String.index 0 ".desktop" id = None ->
  String.index 0 ".desktop" (id +:+ ".desktop") = Some (String.length id).
Proof.
  induction id as [|c id IH]; [reflexivity|].
  intros H. rewrite append_cons.
  cbn [String.index] in *.
  destruct (String.prefix ".desktop" (String c id)) eqn:Hp; [discriminate|].
  destruct (String.index 0 ".desktop" id) eqn:Hi; [discriminate|].
  rewrite <- append_cons, suffix_has_no_border by (congruence || exact Hp).
  rewrite IH by reflexivity. reflexivity.
Qed.

Lemma substring_whole (s : string) : String.substring 0 (String.length s) s = s.
Proof. induction s as [|c s IH]; [reflexivity|]. simpl. now rewrite IH. Qed.

Lemma substring_before (s t : string) :
  String.substring 0 (String.length s) (s +:+ t) = s.
Proof.
  induction s as [|c s IH]; [destruct t; reflexivity|].
  rewrite append_cons. simpl. now rewrite IH.
Qed.

Lemma string_rev_app (s t : string) :
  string_rev (s +:+ t) = string_rev t +:+ string_rev s.
Proof.
  induction s as [|c s IH].
  - rewrite append_nil. simpl. induction (string_rev t) as [|x r IHr]; [reflexivity|].
    rewrite append_cons. now rewrite <- IHr.
  - rewrite append_cons. simpl. rewrite IH.
    generalize (string_rev t) (string_rev s) (String c ""). clear.
    intros a b d. induction a as [|x a IHa]; [reflexivity|].
    rewrite !append_cons. now rewrite IHa.
Qed.

Lemma prefix_app (p s : string) : String.prefix p (p +:+ s) = true.
Proof.
  induction p as [|c p IH]; [destruct s; reflexivity|].
  rewrite append_cons. cbn [String.prefix].
  destruct (ascii_dec c c); [exact IH | congruence].
Qed.

Lemma string_append_assoc (a b c : string) : (a +:+ b) +:+ c = a +:+ (b +:+ c).
Proof.
  induction a as [|x a IH]; [reflexivity|]. rewrite !append_cons. now rewrite IH.
Qed.

Lemma suffix_app (s t : string) : g_str_has_suffix (s +:+ t) t = true.
Proof.
  unfold g_str_has_suffix. rewrite string_rev_app. apply prefix_app.
Qed.

Lemma substring_after_click (rest : string) :
  String.substring 6 (String.length ("click-" +:+ rest) - 6) ("click-" +:+ rest)
  = rest.
Proof.
  change ("click-" +:+ rest)
    with (String "c" (String "l" (String "i" (String "c" (String "k"
            (String "-" rest)))))).
  simpl. rewrite Nat.sub_0_r. apply substring_whole.
Qed.

Lemma prefix_app_mono (p a s : string) :
  String.prefix p a = true -> String.prefix p (a +:+ s) = true.
Proof.
  revert a. induction p as [|c p IH]; intros a H;
    [destruct (a +:+ s); reflexivity|].
  destruct a as [|x a]; [discriminate|].
  rewrite append_cons. cbn [String.prefix] in *.
  destruct (ascii_dec c x); [now apply IH | discriminate].
Qed.

(** An occurrence in the identity is found at the same place or
    earlier once something is appended, and lies inside the identity. *)
Lemma index_inside_identity (id s : string) (k : nat) :
  String.index 0 ".desktop" id = Some k ->
  exists k', String.index 0 ".desktop" (id +:+ s) = Some k'
             /\ (k' <= k)%nat /\ (k < String.length id)%nat.
Proof.
  revert k. induction id as [|c id IH]; intros k H; [discriminate|].
  rewrite append_cons. cbn [String.index] in *.
  destruct (String.prefix ".desktop" (String c id)) eqn:Hp.
  - injection H as <-.
    rewrite <- append_cons, (prefix_app_mono _ _ _ Hp).
    exists O. simpl. repeat split; lia.
  - destruct (String.index 0 ".desktop" id) as [k1|] eqn:Hi; [|discriminate].
    injection H as <-. destruct (IH k1 eq_refl) as (k' & -> & Hle & Hlt).
    destruct (String.prefix ".desktop" (String c (id +:+ s))).
    + exists O. simpl. repeat split; lia.
    + exists (S k'). simpl. repeat split; lia.
Qed.

Lemma substring_length_le (n : nat) (s : string) :
  (String.length (String.substring 0 n s) <= n)%nat.
Proof.
  revert s. induction n as [|n IH]; intros [|c s]; simpl; try lia.
  specialize (IH s). lia.
Qed.

(** X16.  The name [main] gives the desktop file of an identity, read by
    [add_desktop_file] on a later run: the name passes both of its tests
    (suffix [.desktop], prefix [click-]), and the identity it reads back
    from the name is the one the file was written for exactly when the
    identity does not itself contain [.desktop]; otherwise the name is
    cut at the first occurrence and a shorter identity is read. *)
Theorem desktop_file_name_round_trip :
  forall identity : string,
    let name := ("click-" +:+ identity +:+ ".desktop")%string in
    g_str_has_suffix name ".desktop" = true
    /\ g_str_has_prefix name "click-" = true
    /\ (desktop_file_app_id name = identity
        <-> String.index 0 ".desktop" identity = None).
Proof.
  intros identity name. unfold name. split; [|split].
  - rewrite <- string_append_assoc. apply suffix_app.
  - apply prefix_app.
  - unfold desktop_file_app_id. rewrite substring_after_click. split.
    + intros H.
      destruct (String.index 0 ".desktop" identity) as [k|] eqn:Hi;
        [|reflexivity].
      destruct (index_inside_identity identity ".desktop" k Hi)
        as (k' & Hk' & Hle & Hlt).
      rewrite Hk' in H. apply (f_equal String.length) in H.
      pose proof (substring_length_le k' (identity +:+ ".desktop")). lia.
    + intros H. rewrite index_after_identity by exact H.
      apply substring_before.
Qed.

(** What [add_desktop_file] records for a generated name: the entry of
    the identity read from the name is marked as having a desktop file,
    created when the file was. *)
Example add_desktop_file_reads_identity :
  forall fs : FileSystem,
    add_desktop_file fs "/apps" "click-com.example.calc_calc_1.0.desktop" []
    = [ {| app_id := "com.example.calc_calc_1.0"; has_click := false;
           has_desktop := true; click_created := 0;
           desktop_created :=
             time_created fs "/apps/click-com.example.calc_calc_1.0.desktop" |} ].
Proof. reflexivity. Qed.

End DesktopFileNames.

Section DesktopHookRun.
Import GLib DesktopHook.

Local Open Scope Z_scope.

Variable fs : FileSystem.
Variables user_cache_dir user_data_dir : string.
Variable app_id_to_triplet : string -> bool.
Variable manifest_to_desktop : string -> string -> option string.
Variable desktop_to_exec : GKeyFile -> string -> option string.

Local Abbreviation process_state :=
  (process_state fs app_id_to_triplet manifest_to_desktop desktop_to_exec).
Local Abbreviation process_all :=
  (process_all fs app_id_to_triplet manifest_to_desktop desktop_to_exec).
Local Abbreviation main :=
  (main fs user_cache_dir user_data_dir app_id_to_triplet manifest_to_desktop
     desktop_to_exec).

(** The names a directory lists, none when it cannot be opened. *)
Definition listing (dirname : string) : list string :=
  match read_dir fs dirname with
  | Some names => names
  | None => []
  end.

Lemma dir_for_each_keeps_invariant
    (func : string -> string -> list app_state_t -> list app_state_t)
    (click_names desktop_names : list string) (dirname : string)
    (app_array : list app_state_t) :
  (forall name app_array,
      In name (listing dirname) ->
      scan_invariant click_names desktop_names app_array ->
      scan_invariant click_names desktop_names (func dirname name app_array)) ->
  scan_invariant click_names desktop_names app_array ->
  scan_invariant click_names desktop_names
    (dir_for_each fs dirname func app_array).
Proof.
  intros Hstep Hinv. unfold dir_for_each, listing in *.
  destruct (read_dir fs dirname) as [names|]; [|exact Hinv].
  apply (fold_keeps_invariant click_names desktop_names func dirname names);
    auto.
Qed.

Lemma scan_directories_invariant :
  scan_invariant (listing (symlinkdir user_cache_dir))
    (listing (desktopdir user_data_dir))
    (fst (scan_directories fs user_cache_dir user_data_dir)).
Proof.
  unfold scan_directories.
  assert (Hempty : scan_invariant (listing (symlinkdir user_cache_dir))
                     (listing (desktopdir user_data_dir)) []).
  { split; constructor. }
  destruct (negb (exists_or_is_dir fs (symlinkdir user_cache_dir))); simpl;
    [exact Hempty|].
  apply dir_for_each_keeps_invariant.
  - intros name arr Hin Hinv. now apply add_desktop_file_keeps_invariant.
  - apply dir_for_each_keeps_invariant; [|exact Hempty].
    intros name arr Hin Hinv. now apply add_click_package_keeps_invariant.
Qed.

(** X17.  After the two scans every identity has one entry in the array, and
    every entry records an observation: it was seen as a click entry or
    as a generated desktop file (the row of the state table with
    neither does not occur); an entry marked as click names an entry of
    the click directory; and an entry marked as desktop comes from a
    file of the applications directory with the prefix [click-] and the
    suffix [.desktop], from whose name the identity was read. *)
Theorem scan_directories_observations :
  let apparray := fst (scan_directories fs user_cache_dir user_data_dir) in
  NoDup (List.map app_id apparray)
  /\ forall state : app_state_t,
       In state apparray ->
       (has_click state = true \/ has_desktop state = true)
       /\ (has_click state = true ->
           In (app_id state) (listing (symlinkdir user_cache_dir)))
       /\ (has_desktop state = true ->
           exists name,
             In name (listing (desktopdir user_data_dir))
             /\ g_str_has_prefix name "click-" = true
             /\ g_str_has_suffix name ".desktop" = true
             /\ desktop_file_app_id name = app_id state).
Proof.
  destruct scan_directories_invariant as [Hnodup Hall].
  split; [exact Hnodup|].
  intros state Hin. rewrite List.Forall_forall in Hall.
  destruct (Hall state Hin) as (Hobs & Hclick & Hdesk).
  split; [exact Hobs|]. split; [exact Hclick|].
  intros Hd. destruct (Hdesk Hd) as (name & Hn & Hg & Hid).
  exists name. unfold generated_name in Hg.
  apply andb_true_iff in Hg as [Hs Hp]. auto.
Qed.

(** Which entries [process_state] deletes and writes for. *)
Lemma process_state_provenance symlinkdir desktopdir exists_ state action :
  In action (snd (process_state symlinkdir desktopdir exists_ state)) ->
  match action with
  | g_unlink path =>
      has_desktop state = true /\ path = desktop_file_path state desktopdir
  | g_mkdir_with_parents _ => True
  | g_file_set_contents to _ =>
      has_click state = true /\ to = desktop_file_path state desktopdir
  end.
Proof.
  unfold DesktopHook.process_state, remove_desktop_file.
  assert (Hb : In action
                 (build_desktop_file fs app_id_to_triplet manifest_to_desktop
                    desktop_to_exec state symlinkdir desktopdir) ->
               has_click state = true ->
               match action with
               | g_unlink path =>
                   has_desktop state = true
                   /\ path = desktop_file_path state desktopdir
               | g_mkdir_with_parents _ => True
               | g_file_set_contents to _ =>
                   has_click state = true /\ to = desktop_file_path state desktopdir
               end).
  { intros Hin Hc. apply build_desktop_file_writes in Hin as (w & -> & _). auto. }
  destruct (has_click state) eqn:Hc; destruct (has_desktop state) eqn:Hd; simpl.
  - destruct (click_created state >? desktop_created state); simpl; [|intros []].
    intros [<-|H]; [auto | now apply Hb].
  - destruct exists_; simpl; [intros H; now apply Hb|].
    intros [<-|H]; [exact I|].
    destruct (mkdir_succeeds fs desktopdir); [now apply Hb | destruct H].
  - intros [<-|[]]. auto.
  - intros [].
Qed.

Lemma main_action_provenance (argc : Z) (action : fs_action) :
  In action (snd (main argc)) ->
  exists state,
    In state (fst (scan_directories fs user_cache_dir user_data_dir))
    /\ match action with
       | g_unlink path =>
           has_desktop state = true
           /\ path = desktop_file_path state (desktopdir user_data_dir)
       | g_mkdir_with_parents _ => True
       | g_file_set_contents to _ =>
           has_click state = true
           /\ to = desktop_file_path state (desktopdir user_data_dir)
       end.
Proof.
  unfold DesktopHook.main.
  destruct (negb (argc =? 1)); [intros []|].
  destruct (scan_directories fs user_cache_dir user_data_dir) as [apparray e].
  simpl. intros H.
  apply process_all_actions in H as (state & e' & Hin & H).
  exists state. split; [exact Hin|]. eapply process_state_provenance. exact H.
Qed.

(** X19.  [main] deletes nothing but generated desktop files it has seen:
    every path it unlinks is [click-<identity>.desktop] in the
    applications directory, for an identity read from the name of a file
    of that directory that has the prefix [click-] and the suffix
    [.desktop].  A file without them is never deleted on its own
    account. *)
Theorem main_unlinks_only_generated_files :
  forall (argc : Z) (path : string),
    In (g_unlink path) (snd (main argc)) ->
    exists name : string,
      In name (listing (desktopdir user_data_dir))
      /\ g_str_has_prefix name "click-" = true
      /\ g_str_has_suffix name ".desktop" = true
      /\ path = g_build_filename
                  [desktopdir user_data_dir;
                   "click-" +:+ desktop_file_app_id name +:+ ".desktop"].
Proof.
  intros argc path H.
  apply main_action_provenance in H as (state & Hin & Hd & ->).
  destruct scan_directories_invariant as [_ Hall].
  rewrite List.Forall_forall in Hall.
  destruct (Hall state Hin) as (_ & _ & Hdesk).
  destruct (Hdesk Hd) as (name & Hn & Hg & Hid).
  exists name. unfold generated_name in Hg.
  apply andb_true_iff in Hg as [Hs Hp].
  unfold desktop_file_path. rewrite Hid. auto.
Qed.

(** X20.  [main] writes a desktop file only for an identity that is an entry
    of the click directory, and writes it under the name
    [click-<identity>.desktop] in the applications directory. *)
Theorem main_writes_only_for_click_entries :
  forall (argc : Z) (to : string) (written : GKeyFile),
    In (g_file_set_contents to written) (snd (main argc)) ->
    exists identity : string,
      In identity (listing (symlinkdir user_cache_dir))
      /\ to = g_build_filename
                [desktopdir user_data_dir; "click-" +:+ identity +:+ ".desktop"].
Proof.
  intros argc to written H.
  apply main_action_provenance in H as (state & Hin & Hc & ->).
  destruct scan_directories_invariant as [_ Hall].
  rewrite List.Forall_forall in Hall.
  destruct (Hall state Hin) as (_ & Hclick & _).
  exists (app_id state). split; [now apply Hclick | reflexivity].
Qed.

(** X21.  Without a click directory [main] changes nothing: neither scan is
    made, so even a generated desktop file left over in the
    applications directory stays where it is. *)
Theorem main_without_click_directory :
  exists_or_is_dir fs (symlinkdir user_cache_dir) = false ->
  main 1 = (Exited 0, []).
Proof.
  intros H. unfold DesktopHook.main, scan_directories. rewrite H. reflexivity.
Qed.

Lemma dir_for_each_keeps_marked
    (func : string -> string -> list app_state_t -> list app_state_t)
    (flag : app_state_t -> bool) (identity dirname : string)
    (app_array : list app_state_t) :
  (forall name app_array,
      marked flag identity app_array ->
      marked flag identity (func dirname name app_array)) ->
  marked flag identity app_array ->
  marked flag identity (dir_for_each fs dirname func app_array).
Proof.
  intros Hstep Hm. unfold dir_for_each.
  destruct (read_dir fs dirname) as [names|]; [|exact Hm].
  now apply fold_keeps_marked.
Qed.

Lemma scan_directories_marks_click (identity : string) :
  exists_or_is_dir fs (symlinkdir user_cache_dir) = true ->
  In identity (listing (symlinkdir user_cache_dir)) ->
  marked has_click identity
    (fst (scan_directories fs user_cache_dir user_data_dir)).
Proof.
  intros He Hin. unfold scan_directories. rewrite He. simpl.
  apply dir_for_each_keeps_marked.
  { intros name arr. apply add_desktop_file_keeps_marked. now left. }
  unfold dir_for_each, listing in *.
  destruct (read_dir fs (symlinkdir user_cache_dir)) as [names|]; [|destruct Hin].
  apply (fold_marks (add_click_package fs) has_click Some
           (symlinkdir user_cache_dir)) with (name := identity); auto.
  - intros id name arr. apply add_click_package_keeps_marked. now left.
  - intros name id arr [= <-]. apply add_click_package_marks.
Qed.

Lemma scan_directories_marks_desktop (name : string) :
  exists_or_is_dir fs (symlinkdir user_cache_dir) = true ->
  In name (listing (desktopdir user_data_dir)) ->
  g_str_has_suffix name ".desktop" = true ->
  g_str_has_prefix name "click-" = true ->
  marked has_desktop (desktop_file_app_id name)
    (fst (scan_directories fs user_cache_dir user_data_dir)).
Proof.
  intros He Hin Hs Hp. unfold scan_directories. rewrite He. simpl.
  unfold dir_for_each at 1. unfold listing in Hin.
  destruct (read_dir fs (desktopdir user_data_dir)) as [names|]; [|destruct Hin].
  apply (fold_marks (add_desktop_file fs) has_desktop
           (fun name => if generated_name name
                        then Some (desktop_file_app_id name) else None)
           (desktopdir user_data_dir)) with (name := name); auto.
  - intros id n arr. apply add_desktop_file_keeps_marked. now right.
  - intros n id arr. unfold generated_name.
    destruct (g_str_has_suffix n ".desktop") eqn:Hs'; [|discriminate].
    destruct (g_str_has_prefix n "click-") eqn:Hp'; [|discriminate].
    simpl. intros [= <-]. now apply add_desktop_file_marks.
  - unfold generated_name. now rewrite Hs, Hp.
Qed.

(** X18.  When the click directory is there, the scans miss nothing: every
    entry of the click directory has an entry in the array marked as
    click, and every file of the applications directory with the suffix
    [.desktop] and the prefix [click-] has the identity read from its
    name marked as desktop. *)
Theorem scan_directories_complete :
  exists_or_is_dir fs (symlinkdir user_cache_dir) = true ->
  let apparray := fst (scan_directories fs user_cache_dir user_data_dir) in
  (forall identity : string,
      In identity (listing (symlinkdir user_cache_dir)) ->
      exists state, In state apparray /\ app_id state = identity
                    /\ has_click state = true)
  /\ (forall name : string,
        In name (listing (desktopdir user_data_dir)) ->
        g_str_has_suffix name ".desktop" = true ->
        g_str_has_prefix name "click-" = true ->
        exists state, In state apparray
                      /\ app_id state = desktop_file_app_id name
                      /\ has_desktop state = true).
Proof.
  intros He apparray. split.
  - intros identity Hin. now apply scan_directories_marks_click.
  - intros name Hin Hs Hp. now apply scan_directories_marks_desktop.
Qed.

(** Once [desktopdirexists] is true it stays true, so every entry of
    the array is processed with it true. *)
Lemma process_all_includes symlinkdir desktopdir apparray state action :
  In state apparray ->
  In action (snd (process_state symlinkdir desktopdir true state)) ->
  In action (process_all symlinkdir desktopdir true apparray).
Proof.
  induction apparray as [|st rest IH]; intros Hin Ha; [destruct Hin|].
  assert (Hfst : forall st, fst (process_state symlinkdir desktopdir true st)
                            = true).
  { intros st'. unfold DesktopHook.process_state.
    destruct (has_click st' && has_desktop st');
      [destruct (click_created st' >? desktop_created st'); reflexivity|].
    destruct (has_click st'); [reflexivity|].
    destruct (has_desktop st'); reflexivity. }
  simpl. specialize (Hfst st).
  destruct (process_state symlinkdir desktopdir true st) as [e acts] eqn:E.
  simpl in Hfst. subst e. apply in_or_app.
  destruct Hin as [-> | Hin]; [left; now rewrite E in Ha | right; auto].
Qed.

Lemma main_runs_process_state (state : app_state_t) (action : fs_action) :
  exists_or_is_dir fs (symlinkdir user_cache_dir) = true ->
  In state (fst (scan_directories fs user_cache_dir user_data_dir)) ->
  In action (snd (process_state (symlinkdir user_cache_dir)
                    (desktopdir user_data_dir) true state)) ->
  In action (snd (main 1)).
Proof.
  intros He Hin Ha. unfold DesktopHook.main. simpl.
  revert Hin. unfold scan_directories. rewrite He. simpl.
  intros Hin. now apply process_all_includes with (state := state).
Qed.

(** X22.  A generated desktop file whose identity is no entry of the click
    directory is deleted: when the click directory is there and the
    applications directory holds a file with the prefix [click-] and the
    suffix [.desktop] whose identity is not listed in the click
    directory, [main] unlinks [click-<identity>.desktop] in the
    applications directory. *)
Theorem main_unlinks_orphaned_desktop_file :
  forall name : string,
    exists_or_is_dir fs (symlinkdir user_cache_dir) = true ->
    In name (listing (desktopdir user_data_dir)) ->
    g_str_has_suffix name ".desktop" = true ->
    g_str_has_prefix name "click-" = true ->
    ~ In (desktop_file_app_id name) (listing (symlinkdir user_cache_dir)) ->
    In (g_unlink (g_build_filename
                    [desktopdir user_data_dir;
                     "click-" +:+ desktop_file_app_id name +:+ ".desktop"]))
       (snd (main 1)).
Proof.
  intros name He Hin Hs Hp Hno.
  destruct (scan_directories_marks_desktop name He Hin Hs Hp)
    as (state & Hst & Hid & Hd).
  destruct scan_directories_invariant as [_ Hall].
  rewrite List.Forall_forall in Hall.
  destruct (Hall state Hst) as (_ & Hclick & _).
  apply (main_runs_process_state state); [exact He | exact Hst|].
  unfold DesktopHook.process_state.
  destruct (has_click state) eqn:Hc.
  - exfalso. apply Hno. rewrite <- Hid. now apply Hclick.
  - rewrite Hd. simpl. left. unfold desktop_file_path. now rewrite Hid.
Qed.

(** X23.  A click entry with no generated desktop file gets one: when the
    click directory lists the identity, no file of the applications
    directory with the prefix and the suffix reads as that identity, the
    identity parses, the package's manifest names a desktop file that
    loads and has a launch command, then [main] writes
    [click-<identity>.desktop] in the applications directory with the
    rewritten key file. *)
Theorem main_writes_new_click_entry :
  forall (identity from oldexec : string) (keyfile : GKeyFile),
    exists_or_is_dir fs (symlinkdir user_cache_dir) = true ->
    In identity (listing (symlinkdir user_cache_dir)) ->
    (forall name : string,
        In name (listing (desktopdir user_data_dir)) ->
        g_str_has_suffix name ".desktop" = true ->
        g_str_has_prefix name "click-" = true ->
        desktop_file_app_id name <> identity) ->
    app_id_to_triplet identity = true ->
    manifest_to_desktop (symlinkdir user_cache_dir) identity = Some from ->
    load_key_file fs from = Some keyfile ->
    desktop_to_exec keyfile from = Some oldexec ->
    In (g_file_set_contents
          (g_build_filename
             [desktopdir user_data_dir; "click-" +:+ identity +:+ ".desktop"])
          (rewritten_key_file keyfile oldexec (symlinkdir user_cache_dir)
             identity))
       (snd (main 1)).
Proof.
  intros identity from oldexec keyfile He Hin Hnone Ht Hm Hl Hx.
  destruct (scan_directories_marks_click identity He Hin)
    as (state & Hst & Hid & Hc).
  destruct scan_directories_invariant as [_ Hall].
  rewrite List.Forall_forall in Hall.
  destruct (Hall state Hst) as (_ & _ & Hdesk).
  apply (main_runs_process_state state); [exact He | exact Hst|].
  unfold DesktopHook.process_state. rewrite Hc.
  destruct (has_desktop state) eqn:Hd.
  - exfalso. destruct (Hdesk eq_refl) as (name & Hn & Hg & Hname).
    unfold generated_name in Hg. apply andb_true_iff in Hg as [Hs Hp].
    apply (Hnone name Hn Hs Hp). now rewrite Hname.
  - simpl. unfold build_desktop_file, copy_desktop_file, desktop_file_path.
    rewrite Hid, Ht, Hm, Hl, Hx. simpl. now left.
Qed.

End DesktopHookRun.

Section DesktopHookRunExamples.
Import GLib DesktopHook.

Local Open Scope Z_scope.

(** A later session: the calculator is installed and has its desktop
    file; the desktop file of a package since removed is still there,
    beside a desktop file that is not a generated one. *)
Definition after_removal : FileSystem :=
  {| file_exists := fun p => String.eqb p click_dir || String.eqb p applications_dir;
     is_dir := fun p => String.eqb p click_dir || String.eqb p applications_dir;
     read_dir := fun p =>
       if String.eqb p click_dir then Some [calculator_id]
       else if String.eqb p applications_dir
            then Some ["click-com.example.old_old_0.9.desktop"%string;
                       "firefox.desktop"%string;
                       "click-com.example.calc_calc_1.0.desktop"%string]
            else None;
     load_key_file := fun p =>
       if String.eqb p (click_dir +:+ "/com.example.calc_calc_1.0/calc.desktop")
       then Some source_entry else None;
     time_created := fun _ => 0;
     mkdir_succeeds := fun _ => true |}.

(** A session with no click directory, and a generated desktop file
    left in the applications directory. *)
Definition no_click_directory : FileSystem :=
  {| file_exists := fun p => String.eqb p applications_dir;
     is_dir := fun p => String.eqb p applications_dir;
     read_dir := fun p =>
       if String.eqb p applications_dir
       then Some ["click-com.example.old_old_0.9.desktop"%string]
       else None;
     load_key_file := fun _ => None;
     time_created := fun _ => 0;
     mkdir_succeeds := fun _ => true |}.

Definition after_removal_main : Z -> termination * list fs_action :=
  main after_removal "/home/u/.cache" "/home/u/.local/share" (fun _ => true)
    sample_manifest_to_desktop sample_desktop_to_exec.

Example after_removal_run :
  after_removal_main 1
  = (Exited 0,
     [g_unlink (applications_dir +:+ "/click-com.example.old_old_0.9.desktop")]).
Proof. reflexivity. Qed.

Lemma scan_directories_complete_witness :
  exists state : app_state_t,
    In state (fst (scan_directories after_removal "/home/u/.cache"
                     "/home/u/.local/share"))
    /\ app_id state = desktop_file_app_id "click-com.example.old_old_0.9.desktop"
    /\ has_desktop state = true.
Proof.
  apply (proj2 (scan_directories_complete after_removal "/home/u/.cache"
                  "/home/u/.local/share" eq_refl)
           "click-com.example.old_old_0.9.desktop");
    [now left | reflexivity | reflexivity].
Defined.

Lemma main_unlinks_only_generated_files_witness :
  exists name : string,
    In name (listing after_removal (desktopdir "/home/u/.local/share"))
    /\ g_str_has_prefix name "click-" = true
    /\ g_str_has_suffix name ".desktop" = true
    /\ (applications_dir +:+ "/click-com.example.old_old_0.9.desktop")%string
       = g_build_filename
           [desktopdir "/home/u/.local/share";
            "click-" +:+ desktop_file_app_id name +:+ ".desktop"].
Proof.
  apply (main_unlinks_only_generated_files after_removal "/home/u/.cache"
           "/home/u/.local/share" (fun _ => true) sample_manifest_to_desktop
           sample_desktop_to_exec 1).
  left. reflexivity.
Defined.

Lemma main_writes_only_for_click_entries_witness :
  exists identity : string,
    In identity (listing fresh_install (symlinkdir "/home/u/.cache"))
    /\ (applications_dir +:+ "/click-com.example.calc_calc_1.0.desktop")%string
       = g_build_filename
           [desktopdir "/home/u/.local/share";
            "click-" +:+ identity +:+ ".desktop"].
Proof.
  apply (main_writes_only_for_click_entries fresh_install "/home/u/.cache"
           "/home/u/.local/share" (fun _ => true) sample_manifest_to_desktop
           sample_desktop_to_exec 1 _
           (rewritten_key_file source_entry "calc %u" click_dir calculator_id)).
  left. reflexivity.
Defined.

Lemma main_without_click_directory_witness :
  main no_click_directory "/home/u/.cache" "/home/u/.local/share" (fun _ => true)
    sample_manifest_to_desktop sample_desktop_to_exec 1
  = (Exited 0, []).
Proof.
  apply (main_without_click_directory no_click_directory "/home/u/.cache"
           "/home/u/.local/share" (fun _ => true) sample_manifest_to_desktop
           sample_desktop_to_exec).
  reflexivity.
Defined.

Lemma main_unlinks_orphaned_desktop_file_witness :
  In (g_unlink (g_build_filename
                  [desktopdir "/home/u/.local/share";
                   "click-"
                   +:+ desktop_file_app_id "click-com.example.old_old_0.9.desktop"
                   +:+ ".desktop"]))
     (snd (after_removal_main 1)).
Proof.
  apply (main_unlinks_orphaned_desktop_file after_removal "/home/u/.cache"
           "/home/u/.local/share" (fun _ => true) sample_manifest_to_desktop
           sample_desktop_to_exec "click-com.example.old_old_0.9.desktop").
  - reflexivity.
  - now left.
  - reflexivity.
  - reflexivity.
  - vm_compute. intros [H|[]]. discriminate H.
Defined.

Lemma main_writes_new_click_entry_witness :
  In (g_file_set_contents
        (g_build_filename
           [desktopdir "/home/u/.local/share";
            "click-" +:+ calculator_id +:+ ".desktop"])
        (rewritten_key_file source_entry "calc %u"
           (symlinkdir "/home/u/.cache") calculator_id))
     (snd (fresh_install_main 1)).
Proof.
  apply (main_writes_new_click_entry fresh_install "/home/u/.cache"
           "/home/u/.local/share" (fun _ => true) sample_manifest_to_desktop
           sample_desktop_to_exec calculator_id
           (click_dir +:+ "/com.example.calc_calc_1.0/calc.desktop")).
  - reflexivity.
  - now left.
  - intros name [].
  - reflexivity.
  - reflexivity.
  - reflexivity.
  - reflexivity.
Defined.

End DesktopHookRunExamples.

(* ===================================================================== *)
(** * The merge heuristic under an absolute base path *)
(* ===================================================================== *)

Section IconFinderAbsoluteBase.
Import StdString GLib IconFinder.

Local Open Scope Z_scope.

Variable fs : FileSystem.

Lemma front_separator (s : string) :
  front s = "/"%char -> String.get 0 s = Some "/"%char.
Proof. destruct s as [|c s]; simpl; [discriminate | congruence]. Qed.

(** With the character at index 0, a search from any bound finds it or
    a later one. *)
Lemma rindex_below_finds (c : ascii) (s : string) (bound : nat) :
  String.get 0 s = Some c -> (0 < bound)%nat ->
  exists i, rindex_below c s bound = Some i.
Proof.
  intros H0. induction bound as [|i IH]; intros Hb; [lia|].
  simpl. destruct i as [|i].
  - rewrite H0, Ascii.eqb_refl. eauto.
  - destruct (String.get (S i) s) as [c'|]; [|apply IH; lia].
    destruct (Ascii.eqb c' c); [eauto | apply IH; lia].
Qed.

Lemma find_last_of_absolute (parent : string) (pos : Z) :
  String.get 0 parent = Some "/"%char -> 0 <= pos ->
  0 <= find_last_of parent "/"%char pos < StdString.size parent
  /\ String.get (Z.to_nat (find_last_of parent "/"%char pos)) parent
     = Some "/"%char.
Proof.
  intros H0 Hpos. unfold find_last_of.
  assert (Hlen : (0 < String.length parent)%nat).
  { destruct parent; [discriminate | simpl; lia]. }
  pose proof (rindex_below_spec "/"%char parent
                (Z.to_nat (Z.min (pos + 1) (StdString.size parent)))) as Hspec.
  destruct (rindex_below_finds "/"%char parent
              (Z.to_nat (Z.min (pos + 1) (StdString.size parent))) H0) as [i Hi].
  { unfold StdString.size. lia. }
  rewrite Hi in *. destruct Hspec as [Hlt Hget].
  rewrite Nat2Z.id. unfold StdString.size in *. repeat split; try lia; exact Hget.
Qed.

Lemma substring_overshoot (s : string) :
  forall n, (String.length s <= n)%nat -> String.substring 0 n s = s.
Proof.
  induction s as [|c s IH]; intros [|n] Hn; simpl in *; try reflexivity; try lia.
  rewrite IH by lia. reflexivity.
Qed.

(** What [substr(k)] is at an index [k] that holds a character. *)
Lemma substring_from_index (k : nat) :
  forall (s : string) (c : ascii) (n : nat),
    String.get k s = Some c -> (String.length s <= k + n)%nat ->
    exists p1 r,
      s = p1 +:+ String c r /\ String.length p1 = k
      /\ String.substring k n s = String c r.
Proof.
  induction k as [|k IH]; intros [|a s] c n Hget Hn; simpl in Hget;
    try discriminate.
  - injection Hget as ->. exists ""%string, s. repeat split.
    apply substring_overshoot. simpl in *. lia.
  - destruct (IH s c n Hget) as (p1 & r & -> & Hlen & Hsub).
    { simpl in Hn. lia. }
    exists (String a p1), r. repeat split; [simpl; lia | exact Hsub].
Qed.

Lemma occurs_at_start (p1 t : string) :
  forall s,
    String.substring 0 (String.length (p1 +:+ t)) s = p1 +:+ t ->
    String.substring (String.length p1) (String.length t) s = t.
Proof.
  induction p1 as [|x p1 IH]; intros s H; [exact H|].
  rewrite append_cons in H. destruct s as [|c s]; [discriminate|].
  simpl in H. injection H as _ H. simpl. now apply IH.
Qed.

(** A part of an occurrence occurs where the occurrence puts it. *)
Lemma occurs_inside (p1 t : string) :
  t <> ""%string ->
  forall m s,
    String.substring m (String.length (p1 +:+ t)) s = p1 +:+ t ->
    String.substring (m + String.length p1) (String.length t) s = t.
Proof.
  intros Ht. induction m as [|m IH]; intros s H.
  - now apply occurs_at_start.
  - destruct s as [|c s].
    + simpl in H. destruct p1; [symmetry in H; contradiction | discriminate].
    + simpl in *. now apply IH.
Qed.

Lemma substring_in_range (j n : nat) (c : ascii) (r : string) :
  forall s, String.substring j n s = String c r -> (j < String.length s)%nat.
Proof.
  induction j as [|j IH]; intros [|a s] H; simpl in *; try lia.
  - destruct n; discriminate.
  - discriminate.
  - apply IH in H. lia.
Qed.

Section Occurs.

Variables parent child : string.
Hypothesis parent_absolute : front parent = "/"%char.
Hypothesis parent_size : StdString.size parent < npos.
Hypothesis child_size : StdString.size child < npos.
Hypothesis parent_in_child : StdString.find child parent <> npos.

(** The test that leaves the loop fails at every separator of the
    base path: what follows the separator is part of the base path,
    which the name contains. *)
Lemma rest_of_parent_occurs (slashPos : Z) :
  0 <= slashPos ->
  String.get (Z.to_nat slashPos) parent = Some "/"%char ->
  (StdString.find child (substr parent slashPos npos) =? npos) = false.
Proof.
  intros Hpos Hget. apply Z.eqb_neq.
  unfold substr.
  replace (Z.to_nat (Z.min npos (StdString.size parent)))
    with (String.length parent)
    by (unfold StdString.size in *; lia).
  destruct (substring_from_index _ parent "/"%char (String.length parent) Hget)
    as (p1 & r & Hp & Hlen & ->); [lia|].
  unfold StdString.find in *.
  destruct (String.index 0 parent child) as [m|] eqn:Hm; [|congruence].
  apply index_correct1 in Hm. rewrite Hp in Hm.
  apply occurs_inside in Hm; [|discriminate].
  destruct (String.index 0 (String "/" r) child) as [j|] eqn:Hj.
  - apply index_correct1 in Hj. apply substring_in_range in Hj.
    unfold StdString.size, npos in *. lia.
  - exfalso. revert Hm. apply index_correct3 with (n := O);
      [exact Hj | discriminate | lia].
Qed.

Lemma tryMergeFilePaths_loop_never_left (fuel : nat) :
  forall slashPos prevSlashPos,
    0 <= slashPos < StdString.size parent ->
    String.get (Z.to_nat slashPos) parent = Some "/"%char ->
    tryMergeFilePaths_loop fs fuel parent child slashPos prevSlashPos = None.
Proof.
  induction fuel as [|fuel IH]; intros slashPos prevSlashPos Hrange Hget;
    [reflexivity|].
  rewrite tryMergeFilePaths_loop_step.
  replace (slashPos =? npos) with false by (symmetry; apply Z.eqb_neq; lia).
  rewrite rest_of_parent_occurs by (lia || exact Hget). simpl andb. cbv iota.
  destruct (find_last_of_absolute parent (size_t_sub slashPos 1))
    as [Hr Hg].
  - now apply front_separator.
  - unfold size_t_sub. apply Z.mod_pos_bound. lia.
  - now apply IH.
Qed.

Lemma tryMergeFilePaths_never_left (fuel : nat) :
  tryMergeFilePaths fs fuel parent child = None.
Proof.
  unfold tryMergeFilePaths.
  destruct (find_last_of_absolute parent npos) as [Hr Hg].
  - now apply front_separator.
  - unfold npos. lia.
  - now apply tryMergeFilePaths_loop_never_left.
Qed.

End Occurs.

(** X6.  The loop of [tryMergeFilePaths] is never left when the base path
    begins with a separator and occurs in the name: at the leading
    separator [slashPos - 1] wraps around to [npos], [find_last_of] then
    starts again from the last separator, and the test that would leave
    the loop fails every time, because what follows each separator of the
    base path occurs in the name.  No amount of fuel gives a result. *)
Theorem tryMergeFilePaths_never_returns_under_absolute_base :
  forall (parent child : string) (fuel : nat),
    front parent = "/"%char ->
    StdString.size parent < npos ->
    StdString.size child < npos ->
    StdString.find child parent <> npos ->
    tryMergeFilePaths fs fuel parent child = None.
Proof.
  intros parent child fuel H1 H2 H3 H4.
  now apply tryMergeFilePaths_never_left.
Qed.

(** X7.  [find] therefore does not return for an absolute icon name that
    contains the absolute base path of the finder, unless the name, or
    the name joined under the base path, exists: a missing icon given by
    its full path under the base path hangs the caller. *)
Theorem find_never_returns_for_missing_icon_under_base :
  forall (self : IconFinder) (iconName : string) (fuel : nat),
    front iconName = "/"%char ->
    front (_basePath self) = "/"%char ->
    StdString.size (_basePath self) < npos ->
    StdString.size iconName < npos ->
    StdString.find iconName (_basePath self) <> npos ->
    file_exists fs iconName = false ->
    file_exists fs (g_build_filename [_basePath self; iconName]) = false ->
    find fs fuel self iconName = None.
Proof.
  intros self iconName fuel Hf Hb Hs1 Hs2 Hocc He1 He2.
  unfold find. rewrite Hf. change (Ascii.eqb "/"%char "/"%char) with true.
  cbv iota. unfold tryFindExplicitFile. rewrite He1, He2.
  now rewrite tryMergeFilePaths_never_left.
Qed.

End IconFinderAbsoluteBase.

Section IconFinderAbsoluteBaseExamples.
Import StdString GLib IconFinder.

Local Open Scope Z_scope.

Lemma tryMergeFilePaths_never_returns_under_absolute_base_witness :
  tryMergeFilePaths no_icons 1000 "/usr/share" "/usr/share/icons/calc.png" = None.
Proof.
  apply (tryMergeFilePaths_never_returns_under_absolute_base no_icons
           "/usr/share" "/usr/share/icons/calc.png" 1000).
  - reflexivity.
  - vm_compute. reflexivity.
  - vm_compute. reflexivity.
  - vm_compute. discriminate.
Defined.

Lemma find_never_returns_for_missing_icon_under_base_witness :
  find no_icons 1000 (new_IconFinder no_icons "/usr/share")
    "/usr/share/icons/calc.png" = None.
Proof.
  apply (find_never_returns_for_missing_icon_under_base no_icons
           (new_IconFinder no_icons "/usr/share") "/usr/share/icons/calc.png"
           1000).
  - reflexivity.
  - reflexivity.
  - vm_compute. reflexivity.
  - vm_compute. reflexivity.
  - vm_compute. discriminate.
  - reflexivity.
  - reflexivity.
Defined.

End IconFinderAbsoluteBaseExamples.
